(** * Lazyapp job-search backend (server.js): a shallow embedding

    The backend is one Express application: a per-IP rate limiter, three
    provider adapters (Adzuna, Reed, USAJobs), a combined search that calls
    the adapters over loopback and removes duplicates, a generator of
    placeholder jobs and a health report.

    JavaScript values are embedded as the JSON data they are at run time,
    exceptions as an error result, and the effects of a handler (clock
    reads, outbound HTTP calls) as explicit state passing over a [World].
    What the host platform decides (locale date formatting, date parsing,
    the text of a number, the providers' answers) is collected in a [Host]
    record. *)

From Stdlib Require Import ZArith QArith String Ascii List Bool Lia.
From stdpp Require Import gmap strings list pretty.

Set Warnings "-register-all".
Open Scope string_scope.
Open Scope Z_scope.
Open Scope list_scope.

(* ===================================================================== *)
(** ** JavaScript values *)
(* ===================================================================== *)

Module Js.

(** A number, as a JSON parse or a query default produces it: the rational
    a finite double stands for (the two zeros are one, no operation of the
    server tells them apart), or an infinity. There is no NaN in JSON. *)
Inductive number : Type :=
| Finite (q : Q)
| Infinity (negative : bool).

(** The number of an integer literal. *)
Definition whole (z : Z) : number := Finite (inject_Z z).

(** [x === y] on numbers. *)
Definition number_eqb (x y : number) : bool :=
  match x, y with
  | Finite p, Finite q => Qeq_bool p q
  | Infinity a, Infinity b => Bool.eqb a b
  | _, _ => false
  end.

Definition number_is_zero (x : number) : bool :=
  match x with
  | Finite q => Qnum q =? 0
  | Infinity _ => false
  end.

(** The integer a number is, when it is one of magnitude up to 2^53. *)
Definition safe_integer (x : number) : option Z :=
  match x with
  | Finite q =>
      if (Qnum q mod Zpos (Qden q) =? 0)
         && (Z.abs (Qnum q / Zpos (Qden q)) <=? 2 ^ 53)
      then Some (Qnum q / Zpos (Qden q))
      else None
  | Infinity _ => None
  end.

(** The values that reach the handlers: parsed JSON bodies and parsed query
    strings. An object keeps its own fields in order, each name once. *)
Inductive value : Type :=
| JUndefined
| JNull
| JBool (b : bool)
| JNum (n : number)
| JStr (s : string)
| JArr (items : list value)
| JObj (fields : list (string * value)).

Inductive JsError : Type :=
| TypeError (msg : string)
| ReferenceError (ident : string)
| AxiosError.

Inductive Result (A : Type) : Type :=
| Ok (a : A)
| Throw (e : JsError).
Arguments Ok {A} a.
Arguments Throw {A} e.

Definition rbind {A B} (c : Result A) (k : A -> Result B) : Result B :=
  match c with
  | Ok a => k a
  | Throw e => Throw e
  end.

Notation "'try!' x <- c ; k" := (rbind c (fun x => k))
  (at level 10, x name, c at level 100, k at level 200).

Fixpoint mapM {A B} (f : A -> Result B) (l : list A) : Result (list B) :=
  match l with
  | [] => Ok []
  | x :: r => try! y <- f x; try! ys <- mapM f r; Ok (y :: ys)
  end.

(** ToBoolean. *)
Definition truthy (v : value) : bool :=
  match v with
  | JUndefined | JNull => false
  | JBool b => b
  | JNum n => negb (number_is_zero n)
  | JStr s => negb (String.eqb s "")
  | JArr _ | JObj _ => true
  end.

(** [a || b] *)
Definition js_or (a b : value) : value := if truthy a then a else b.

Definition nullish (v : value) : bool :=
  match v with
  | JUndefined | JNull => true
  | _ => false
  end.

(** A destructuring default [{ x = d }]: it applies to [undefined] only. *)
Definition default_to (v d : value) : value :=
  match v with
  | JUndefined => d
  | _ => v
  end.

Fixpoint join (sep : string) (l : list string) : string :=
  match l with
  | [] => ""
  | [s] => s
  | s :: r => s +:+ sep +:+ join sep r
  end.

Fixpoint lookup_field (name : string) (fields : list (string * value)) : value :=
  match fields with
  | [] => JUndefined
  | (k, v) :: r => if String.eqb k name then v else lookup_field name r
  end.

(** The object has a field of its own with that name. *)
Definition has_own (name : string) (fields : list (string * value)) : bool :=
  existsb (fun kv => String.eqb (fst kv) name) fields.

(** Whether ToString (and ToPrimitive) succeeds on a value. An object whose
    own field [toString] hides the method of the prototype cannot be
    converted: the field is data, not a function, and [valueOf] gives the
    object back. An array converts its elements in turn. *)
Fixpoint convertible (v : value) : bool :=
  match v with
  | JArr items => forallb (fun x => nullish x || convertible x) items
  | JObj fields => negb (has_own "toString" fields)
  | _ => true
  end.

(** The string ToString gives for a value that can be converted. [show] is
    the text of a number. An array joins its elements with commas, with
    [null] and [undefined] elements empty. *)
Fixpoint text (show : number -> string) (v : value) : string :=
  match v with
  | JUndefined => "undefined"
  | JNull => "null"
  | JBool true => "true"
  | JBool false => "false"
  | JNum n => show n
  | JStr s => s
  | JArr items =>
      join "," (List.map (fun x => if nullish x then "" else text show x) items)
  | JObj _ => "[object Object]"
  end.

(** ToString, as a template literal, [encodeURIComponent] and string
    concatenation apply it. *)
Definition to_string (show : number -> string) (v : value) : Result string :=
  if convertible v then Ok (text show v)
  else Throw (TypeError "Cannot convert object to primitive value").

(** [v.name] on a value that is neither [null] nor [undefined]. None of the
    names the server reads is a member of a built-in prototype, so only
    objects answer with something else than [undefined]. *)
Definition prop_of (v : value) (name : string) : value :=
  match v with
  | JObj fields => lookup_field name fields
  | _ => JUndefined
  end.

Definition cannot_read (v : value) : JsError :=
  TypeError ("Cannot read properties of "
             +:+ match v with JNull => "null" | _ => "undefined" end).

(** [v.name]: reading a property of [null] or [undefined] throws. *)
Definition get_prop (v : value) (name : string) : Result value :=
  if nullish v then Throw (cannot_read v) else Ok (prop_of v name).

(** [v?.name] *)
Definition opt_prop (v : value) (name : string) : value :=
  if nullish v then JUndefined else prop_of v name.

(** The UTF-16 code units of a string. A string is held as its UTF-8
    bytes: a character beyond the basic plane, four bytes long, is two
    code units. *)
Fixpoint code_units (s : string) : list N :=
  match s with
  | EmptyString => []
  | String a r =>
      let x := N_of_ascii a in
      if (x <? 192)%N then x :: code_units r
      else
        match r with
        | EmptyString => [x]
        | String b r2 =>
            let y := (N_of_ascii b mod 64)%N in
            if (x <? 224)%N then ((x mod 32) * 64 + y)%N :: code_units r2
            else
              match r2 with
              | EmptyString => [x]
              | String c r3 =>
                  let z := (N_of_ascii c mod 64)%N in
                  if (x <? 240)%N
                  then ((x mod 16) * 4096 + y * 64 + z)%N :: code_units r3
                  else
                    match r3 with
                    | EmptyString => [x]
                    | String d r4 =>
                        let u := (N_of_ascii d mod 64)%N in
                        let cp := ((x mod 8) * 262144 + y * 4096 + z * 64 + u
                                   - 65536)%N in
                        (55296 + cp / 1024)%N :: (56320 + cp mod 1024)%N
                        :: code_units r4
                    end
              end
        end
  end.

(** The string of one code unit; half of a surrogate pair, which only
    indexing produces, is held as the three bytes of its generalised
    UTF-8 form. *)
Definition unit_string (u : N) : string :=
  if (u <? 128)%N then String (ascii_of_N u) EmptyString
  else if (u <? 2048)%N
       then String (ascii_of_N (192 + u / 64))
                   (String (ascii_of_N (128 + u mod 64)) EmptyString)
       else String (ascii_of_N (224 + u / 4096))
                   (String (ascii_of_N (128 + (u / 64) mod 64))
                           (String (ascii_of_N (128 + u mod 64)) EmptyString)).

Definition index_of (v : value) (i : nat) : value :=
  match v with
  | JArr items => nth i items JUndefined
  | JStr s => match nth_error (code_units s) i with
              | Some u => JStr (unit_string u)
              | None => JUndefined
              end
  | JObj fields => lookup_field (pretty i) fields
  | _ => JUndefined
  end.

(** [v[i]] *)
Definition get_index (v : value) (i : nat) : Result value :=
  if nullish v then Throw (cannot_read v) else Ok (index_of v i).

(** [v?.[i]] *)
Definition opt_index (v : value) (i : nat) : value :=
  if nullish v then JUndefined else index_of v i.

(** [v.map(f)]: only an array has a [map] method. *)
Definition array_map {B} (f : value -> Result B) (v : value) : Result (list B) :=
  match v with
  | JArr items => mapM f items
  | JUndefined | JNull => Throw (cannot_read v)
  | _ => Throw (TypeError "map is not a function")
  end.

(** [a === b] on values that came out of a JSON parse: primitives compare
    by value, arrays and objects by identity. [same_ref] says whether both
    operands were read from one and the same parsed record. *)
Definition strict_equals (same_ref : bool) (a b : value) : bool :=
  match a, b with
  | JUndefined, JUndefined => true
  | JNull, JNull => true
  | JBool x, JBool y => Bool.eqb x y
  | JNum x, JNum y => number_eqb x y
  | JStr x, JStr y => String.eqb x y
  | JArr _, JArr _ => same_ref
  | JObj _, JObj _ => same_ref
  | _, _ => false
  end.

(** [s.split(sep)] for a one-character separator. *)
Fixpoint split (sep : ascii) (s : string) : list string :=
  match s with
  | EmptyString => [""]
  | String c r =>
      if Ascii.eqb c sep then "" :: split sep r
      else match split sep r with
           | t :: ts => String c t :: ts
           | [] => [String c EmptyString]
           end
  end.

(** [sources.split(',')]: only a string has a [split] method. *)
Definition split_method (v : value) : Result (list string) :=
  match v with
  | JStr s => Ok (split "," s)
  | JUndefined | JNull => Throw (cannot_read v)
  | _ => Throw (TypeError "split is not a function")
  end.

(** [list.includes(x)] on a list of strings. *)
Definition includes (x : string) (l : list string) : bool :=
  existsb (String.eqb x) l.

(** What [JSON.parse(JSON.stringify(v))] gives back for a value that is
    not [undefined]: an infinity is written [null]; in a list [undefined]
    is written [null]; a field of an object that is [undefined] is left
    out. *)
Fixpoint through_json (v : value) : value :=
  match v with
  | JNum (Infinity _) => JNull
  | JArr items =>
      JArr ((fix each (l : list value) : list value :=
               match l with
               | [] => []
               | JUndefined :: r => JNull :: each r
               | x :: r => through_json x :: each r
               end) items)
  | JObj fields =>
      JObj ((fix each (l : list (string * value)) : list (string * value) :=
               match l with
               | [] => []
               | (k, JUndefined) :: r => each r
               | (k, x) :: r => (k, through_json x) :: each r
               end) fields)
  | _ => v
  end.

Definition hex_digit (n : N) : ascii :=
  if (n <? 10)%N then ascii_of_N (48 + n) else ascii_of_N (55 + n).

Definition uri_unreserved (c : ascii) : bool :=
  let n := N_of_ascii c in
  ((65 <=? n) && (n <=? 90) || (97 <=? n) && (n <=? 122)
   || (48 <=? n) && (n <=? 57))%N
  || existsb (Ascii.eqb c) ["-"; "_"; "."; "!"; "~"; "*"; "'"; "("; ")"]%char.

(** [encodeURIComponent] on a well-formed string, held as its UTF-8 bytes:
    every byte that is not an unreserved character is written [%XX]. *)
Fixpoint encodeURIComponent (s : string) : string :=
  match s with
  | EmptyString => EmptyString
  | String c r =>
      if uri_unreserved c then String c (encodeURIComponent r)
      else let n := N_of_ascii c in
           String "%" (String (hex_digit (n / 16)) (String (hex_digit (n mod 16))
                  (encodeURIComponent r)))
  end.

End Js.
Import Js.

(* ===================================================================== *)
(** ** The host platform and the effects of a handler *)
(* ===================================================================== *)

(** An [axios.get(url, { params, headers })] call. *)
Record Outbound : Type := {
  url : string;
  params : list (string * value);
  headers : list (string * string)
}.

(** What the server does not decide itself. *)
Record Host : Type := {
  (** the value the [n]-th read of the system clock returns, in ms *)
  time_at : nat -> Z;
  (** [Date.parse] *)
  Date_parse : string -> option Z;
  (** [toLocaleDateString] of a date; [None] is the invalid date *)
  toLocaleDateString : option Z -> string;
  (** [toISOString] of a valid date *)
  toISOString : Z -> string;
  (** [Buffer.from(s).toString('base64')] *)
  base64 : string -> string;
  (** [Number::toString] of a number that is not an integer of magnitude up
      to 2^53: the shortest decimal that reads back as the number, in
      exponent form from 1e21 on, or [Infinity] *)
  Number_toString : number -> string;
  (** the body a provider answers the [n]-th outbound call with; [None]
      when axios rejects (transport failure, non-2xx status) *)
  upstream : nat -> Outbound -> option value;
  (** whether the [n]-th outbound call, made to the server's own address,
      gets through to the route handler and back (the network may fail,
      and the server's own rate limiter may refuse the call) *)
  loopback_delivered : nat -> Outbound -> bool
}.

Record World : Type := {
  reads : nat;              (* clock reads so far *)
  calls : list Outbound     (* outbound calls so far, oldest first *)
}.

Definition M (A : Type) : Type := World -> Result A * World.

Definition ret {A} (a : A) : M A := fun w => (Ok a, w).

Definition bind {A B} (c : M A) (k : A -> M B) : M B :=
  fun w => match c w with
           | (Ok a, w') => k a w'
           | (Throw e, w') => (Throw e, w')
           end.

Definition lift {A} (r : Result A) : M A := fun w => (r, w).

(** [try { body } catch (error) { handler }] *)
Definition try_catch {A} (body : M A) (handler : JsError -> M A) : M A :=
  fun w => match body w with
           | (Ok a, w') => (Ok a, w')
           | (Throw e, w') => handler e w'
           end.

Notation "'do!' x <- c ; k" := (bind c (fun x => k))
  (at level 10, x name, c at level 100, k at level 200).

Section Server.

Context (h : Host).

(** [Date.now()], and the clock read of [new Date()]. *)
Definition Date_now : M Z :=
  fun w => (Ok (time_at h (reads w)),
            {| reads := S (reads w); calls := calls w |}).

(** [await axios.get(...)] to a provider. *)
Definition axios_get (o : Outbound) : M value :=
  fun w =>
    let w' := {| reads := reads w; calls := calls w ++ [o] |} in
    match upstream h (length (calls w)) o with
    | Some data => (Ok data, w')
    | None => (Throw AxiosError, w')
    end.

(** [Number::toString]: an integer of magnitude up to 2^53 is written with
    all its digits; the host knows the text of every other number. *)
Definition number_text (n : number) : string :=
  match safe_integer n with
  | Some z => pretty z
  | None => Number_toString h n
  end.

(** ToString of a value, with the host's text of numbers. *)
Definition toString (v : value) : Result string := to_string number_text v.

Definition time_clip (n : Z) : option Z :=
  if Z.abs n <=? 8640000000000000 then Some n else None.

(** The time value of a number: none beyond 8.64e15 ms, the integral part
    otherwise. *)
Definition time_of_number (n : number) : option Z :=
  match n with
  | Finite q =>
      if Z.abs (Qnum q) <=? 8640000000000000 * Zpos (Qden q)
      then Some (Z.quot (Qnum q) (Zpos (Qden q)))
      else None
  | Infinity _ => None
  end.

(** [new Date(v)] for a JSON value [v]: an array or object is first turned
    into a string, which can throw. *)
Definition new_Date (v : value) : Result (option Z) :=
  match v with
  | JUndefined => Ok None
  | JNull => Ok (Some 0)
  | JBool b => Ok (Some (if b then 1 else 0))
  | JNum n => Ok (time_of_number n)
  | JStr s => Ok (Date_parse h s)
  | JArr _ | JObj _ => try! s <- toString v; Ok (Date_parse h s)
  end.

(* ===================================================================== *)
(** ** Job records and responses *)
(* ===================================================================== *)

Record JobRecord : Type := {
  id : value;
  title : value;
  company : value;
  location : value;
  salary : value;
  description : value;
  job_url : value;     (* the field [url] *)
  posted : value;
  source : value
}.

Inductive Body : Type :=
| ProviderOk (jobs : list JobRecord) (total : value)
    (* { success: true, jobs, total } *)
| Failed (error : string) (jobs : list JobRecord)
    (* { success: false, error, jobs } *)
| CombinedOk (jobs : list JobRecord) (total : nat) (sources : list string)
    (* { success: true, jobs, total, sources } *)
| ErrorOnly (error : string)
    (* { error } *)
| HealthBody (status : string) (timestamp : string) (adzuna reed usajobs : bool)
    (* { status, timestamp, services: { adzuna, reed, usajobs } } *)
| NotFoundPage (path : string).
    (* the framework's page for a path that has no route *)

Record Response : Type := {
  status : nat;
  body : Body
}.

Definition body_success (b : Body) : option bool :=
  match b with
  | ProviderOk _ _ | CombinedOk _ _ _ => Some true
  | Failed _ _ => Some false
  | ErrorOnly _ | HealthBody _ _ _ _ _ | NotFoundPage _ => None
  end.

Definition body_jobs (b : Body) : option (list JobRecord) :=
  match b with
  | ProviderOk jobs _ | Failed _ jobs | CombinedOk jobs _ _ => Some jobs
  | ErrorOnly _ | HealthBody _ _ _ _ _ | NotFoundPage _ => None
  end.

(** A GET request as the middleware chain and the routes see it; all
    routes of the server are GET routes. *)
Record Request : Type := {
  protocol : string;
  host : string;
  path : string;
  query : list (string * value)
}.

(** [req.query.name] *)
Definition query_get (req : Request) (name : string) : value :=
  lookup_field name (query req).

(* ===================================================================== *)
(** ** API keys *)
(* ===================================================================== *)

Record ApiKeys : Type := {
  adzuna_appId : value;
  adzuna_appKey : value;
  reed_key : value;
  usajobs_key : value
}.

(** [process.env.NAME] *)
Definition env_get (env : gmap string string) (name : string) : value :=
  match env !! name with
  | Some s => JStr s
  | None => JUndefined
  end.

Definition API_KEYS (env : gmap string string) : ApiKeys :=
  {| adzuna_appId := js_or (env_get env "ADZUNA_APP_ID") (JStr "your_adzuna_app_id");
     adzuna_appKey := js_or (env_get env "ADZUNA_APP_KEY") (JStr "your_adzuna_app_key");
     reed_key := js_or (env_get env "REED_API_KEY") (JStr "your_reed_api_key");
     usajobs_key := js_or (env_get env "USAJOBS_API_KEY") (JStr "your_usajobs_api_key") |}.

(* ===================================================================== *)
(** ** Fallback job data *)
(* ===================================================================== *)

(** [getFallbackJobs(keywords, location, source)]. The fields of the three
    object literals are evaluated in order: of each entry the clock read of
    its [id], the three conversions of the keywords to a string (title,
    description, link), which throw for keywords that cannot be converted,
    and the clock read of its [posted] date. *)
Definition getFallbackJobs (keywords location source : value) : M (list JobRecord) :=
  do! id1 <- Date_now;
  do! title1 <- lift (toString (js_or keywords (JStr "Software")));
  do! about1 <- lift (toString (js_or keywords (JStr "software")));
  do! link1 <- lift (toString (js_or keywords (JStr "software")));
  do! now1 <- Date_now;
  do! id2 <- Date_now;
  do! title2 <- lift (toString (js_or keywords (JStr "Software")));
  do! about2 <- lift (toString (js_or keywords (JStr "software")));
  do! link2 <- lift (toString (js_or keywords (JStr "software")));
  do! now2 <- Date_now;
  do! id3 <- Date_now;
  do! title3 <- lift (toString (js_or keywords (JStr "Software")));
  do! about3 <- lift (toString (js_or keywords (JStr "software")));
  do! link3 <- lift (toString (js_or keywords (JStr "software")));
  do! now3 <- Date_now;
  ret
    [ {| id := JStr ("1-" +:+ pretty id1);
         title := JStr (title1 +:+ " Developer");
         company := JStr "Tech Innovations Inc.";
         location := js_or location (JStr "Remote");
         salary := JStr "$80,000 - $120,000";
         description :=
           JStr ("We are looking for a skilled " +:+ about1
                 +:+ " developer to join our growing team.");
         job_url :=
           JStr ("https://www.example.com/jobs/" +:+ encodeURIComponent link1
                 +:+ "-developer");
         posted := JStr (toLocaleDateString h (time_clip now1));
         source := js_or source (JStr "Fallback") |};
      {| id := JStr ("2-" +:+ pretty id2);
         title := JStr ("Senior " +:+ title2 +:+ " Engineer");
         company := JStr "Digital Solutions Ltd.";
         location := js_or location (JStr "New York, NY");
         salary := JStr "$120,000 - $160,000";
         description :=
           JStr ("Senior " +:+ about2 +:+ " position with leadership responsibilities.");
         job_url :=
           JStr ("https://www.example.com/jobs/senior-" +:+ encodeURIComponent link2);
         posted := JStr (toLocaleDateString h (time_clip (now2 - 86400000)));
         source := js_or source (JStr "Fallback") |};
      {| id := JStr ("3-" +:+ pretty id3);
         title := JStr (title3 +:+ " Specialist");
         company := JStr "Tech Corp";
         location := js_or location (JStr "San Francisco, CA");
         salary := JStr "$90,000 - $130,000";
         description := JStr ("Join our team as a " +:+ about3 +:+ " specialist.");
         job_url :=
           JStr ("https://www.example.com/jobs/" +:+ encodeURIComponent link3
                 +:+ "-specialist");
         posted := JStr (toLocaleDateString h (time_clip (now3 - 172800000)));
         source := js_or source (JStr "Fallback") |} ].

(* ===================================================================== *)
(** ** Provider adapters *)
(* ===================================================================== *)

Section Adapters.

Context (keys : ApiKeys).

(** The callback of [response.data.results.map] in the Adzuna route. The
    salary is put together by a template literal, which converts the
    numbers to strings and can throw; so can [new Date]. *)
Definition adzuna_job (job : value) : Result JobRecord :=
  try! job_id <- get_prop job "id";
  try! job_title <- get_prop job "title";
  try! job_company <- get_prop job "company";
  try! job_location <- get_prop job "location";
  try! salary_min <- get_prop job "salary_min";
  try! salary_max <- get_prop job "salary_max";
  try! salary_text <-
    (if truthy (js_or salary_min salary_max)
     then
       try! lo <- toString (js_or salary_min (JStr ""));
       try! hi <- toString (js_or salary_max (JStr ""));
       Ok (JStr ("£" +:+ lo +:+ " - £" +:+ hi))
     else Ok (JStr "Salary not specified"));
  try! job_description <- get_prop job "description";
  try! redirect_url <- get_prop job "redirect_url";
  try! created <- get_prop job "created";
  try! date <- new_Date created;
  Ok {| id := job_id;
        title := job_title;
        company := js_or (opt_prop job_company "display_name") (JStr "Unknown Company");
        location := js_or (opt_prop job_location "display_name")
                          (JStr "Location not specified");
        salary := salary_text;
        description := job_description;
        job_url := redirect_url;
        posted := JStr (toLocaleDateString h date);
        source := JStr "Adzuna" |}.

(** The [params] of the Adzuna call. *)
Definition adzuna_params (req : Request) : list (string * value) :=
  let keywords := default_to (query_get req "keywords") (JStr "software engineer") in
  let location := default_to (query_get req "location") (JStr "london") in
  let resultsPerPage := default_to (query_get req "resultsPerPage") (JNum (whole 20)) in
  [ ("app_id", adzuna_appId keys);
    ("app_key", adzuna_appKey keys);
    ("what", keywords);
    ("where", location);
    ("results_per_page", resultsPerPage);
    ("content_type", JStr "application/json") ].

(** The Adzuna call. Its url is a template literal around [page], which
    throws for a [page] that cannot be converted to a string. *)
Definition adzuna_request (req : Request) : Result Outbound :=
  let page := default_to (query_get req "page") (JNum (whole 1)) in
  try! page_text <- toString page;
  Ok {| url := "https://api.adzuna.com/v1/api/jobs/gb/search/" +:+ page_text;
        params := adzuna_params req;
        headers := [] |}.

(** [app.get('/api/jobs/adzuna', ...)]. A [Throw] result is an exception
    that leaves the handler: no answer is sent. *)
Definition adzuna_handler (req : Request) : M Response :=
  try_catch
    (do! o <- lift (adzuna_request req);
     do! data <- axios_get o;
     do! results <- lift (get_prop data "results");
     do! jobs <- lift (array_map adzuna_job results);
     do! count <- lift (get_prop data "count");
     ret {| status := 200; body := ProviderOk jobs count |})
    (fun error =>
       do! jobs <- getFallbackJobs (query_get req "keywords")
                                   (query_get req "location") (JStr "Adzuna");
       ret {| status := 500;
              body := Failed "Failed to fetch jobs from Adzuna" jobs |}).

(** The callback of [response.data.results.map] in the Reed route. *)
Definition reed_job (job : value) : Result JobRecord :=
  try! jobId <- get_prop job "jobId";
  try! jobTitle <- get_prop job "jobTitle";
  try! employerName <- get_prop job "employerName";
  try! locationName <- get_prop job "locationName";
  try! minimumSalary <- get_prop job "minimumSalary";
  try! maximumSalary <- get_prop job "maximumSalary";
  try! salary_text <-
    (if truthy (js_or minimumSalary maximumSalary)
     then
       try! lo <- toString (js_or minimumSalary (JStr ""));
       try! hi <- toString (js_or maximumSalary (JStr ""));
       Ok (JStr ("£" +:+ lo +:+ " - £" +:+ hi))
     else Ok (JStr "Salary not specified"));
  try! jobDescription <- get_prop job "jobDescription";
  try! jobUrl <- get_prop job "jobUrl";
  try! date <- get_prop job "date";
  try! posted_date <- new_Date date;
  Ok {| id := jobId;
        title := jobTitle;
        company := employerName;
        location := locationName;
        salary := salary_text;
        description := jobDescription;
        job_url := jobUrl;
        posted := JStr (toLocaleDateString h posted_date);
        source := JStr "Reed" |}.

(** The Reed call. The key goes with a colon, base64-encoded, into the
    Basic authorization header. *)
Definition reed_request (req : Request) : Result Outbound :=
  let keywords := default_to (query_get req "keywords") (JStr "software engineer") in
  let location := default_to (query_get req "location") (JStr "london") in
  try! key <- toString (reed_key keys);
  Ok {| url := "https://www.reed.co.uk/api/1.0/search";
        params := [ ("keywords", keywords); ("location", location) ];
        headers := [ ("Authorization", "Basic " +:+ base64 h (key +:+ ":")) ] |}.

(** [app.get('/api/jobs/reed', ...)] *)
Definition reed_handler (req : Request) : M Response :=
  try_catch
    (do! o <- lift (reed_request req);
     do! data <- axios_get o;
     do! results <- lift (get_prop data "results");
     do! jobs <- lift (array_map reed_job results);
     do! totalResults <- lift (get_prop data "totalResults");
     ret {| status := 200; body := ProviderOk jobs totalResults |})
    (fun error =>
       do! jobs <- getFallbackJobs (query_get req "keywords")
                                   (query_get req "location") (JStr "Reed");
       ret {| status := 500;
              body := Failed "Failed to fetch jobs from Reed" jobs |}).

(** The callback of [SearchResultItems.map] in the USAJobs route. *)
Definition usajobs_job (item : value) : Result JobRecord :=
  try! job <- get_prop item "MatchedObjectDescriptor";
  try! MatchedObjectId <- get_prop job "MatchedObjectId";
  try! PositionTitle <- get_prop job "PositionTitle";
  try! OrganizationName <- get_prop job "OrganizationName";
  try! PositionLocationDisplay <- get_prop job "PositionLocationDisplay";
  try! PositionRemuneration <- get_prop job "PositionRemuneration";
  try! salary_text <-
    (if truthy (js_or (opt_prop (opt_index PositionRemuneration 0) "MinimumRange")
                      (opt_prop (opt_index PositionRemuneration 0) "MaximumRange"))
     then
       try! first_min <- get_index PositionRemuneration 0;
       try! MinimumRange <- get_prop first_min "MinimumRange";
       try! lo <- toString (js_or MinimumRange (JStr ""));
       try! first_max <- get_index PositionRemuneration 0;
       try! MaximumRange <- get_prop first_max "MaximumRange";
       try! hi <- toString (js_or MaximumRange (JStr ""));
       Ok (JStr ("$" +:+ lo +:+ " - $" +:+ hi))
     else Ok (JStr "Salary not specified"));
  try! UserArea <- get_prop job "UserArea";
  try! Details <- get_prop UserArea "Details";
  try! JobSummary <- get_prop Details "JobSummary";
  try! ApplyURI <- get_prop job "ApplyURI";
  try! PositionURI <- get_prop job "PositionURI";
  try! PositionStartDate <- get_prop job "PositionStartDate";
  try! date <- new_Date PositionStartDate;
  Ok {| id := MatchedObjectId;
        title := PositionTitle;
        company := OrganizationName;
        location := PositionLocationDisplay;
        salary := salary_text;
        description := JobSummary;
        job_url := js_or (opt_index ApplyURI 0) PositionURI;
        posted := JStr (toLocaleDateString h date);
        source := JStr "USAJobs" |}.

(** The USAJobs call. The key is sent as the text of the
    [Authorization-Key] header. *)
Definition usajobs_request (req : Request) : Result Outbound :=
  let keywords := default_to (query_get req "keywords") (JStr "software") in
  let location := default_to (query_get req "location") (JStr "washington dc") in
  try! key <- toString (usajobs_key keys);
  Ok {| url := "https://data.usajobs.gov/api/search";
        params := [ ("Keyword", keywords); ("LocationName", location) ];
        headers := [ ("Authorization-Key", key);
                     ("User-Agent", "JobSearchApp/1.0") ] |}.

(** [app.get('/api/jobs/usajobs', ...)] *)
Definition usajobs_handler (req : Request) : M Response :=
  try_catch
    (do! o <- lift (usajobs_request req);
     do! data <- axios_get o;
     do! SearchResult <- lift (get_prop data "SearchResult");
     do! SearchResultItems <- lift (get_prop SearchResult "SearchResultItems");
     do! jobs <- lift (array_map usajobs_job SearchResultItems);
     do! SearchResult' <- lift (get_prop data "SearchResult");
     do! SearchResultCount <- lift (get_prop SearchResult' "SearchResultCount");
     ret {| status := 200; body := ProviderOk jobs SearchResultCount |})
    (fun error =>
       do! jobs <- getFallbackJobs (query_get req "keywords")
                                   (query_get req "location") (JStr "USAJobs");
       ret {| status := 500;
              body := Failed "Failed to fetch jobs from USAJobs" jobs |}).

(* ===================================================================== *)
(** ** Combined search *)
(* ===================================================================== *)

(** [await Promise.all(promises)]: the results in the order of the
    promises. The calls behind the promises were all issued before; what
    is left of each is the work of the route it reached. The routes are
    run here in the order of the promises; in the program their work
    interleaves as the providers answer, which can change the order of
    the provider calls and of the clock reads in the [World], and nothing
    in what a promise settles to. *)
Fixpoint promise_all {A} (promises : list (M A)) : M (list A) :=
  match promises with
  | [] => ret []
  | p :: r => do! x <- p; do! xs <- promise_all r; ret (x :: xs)
  end.

(** The query the loopback call delivers: axios leaves out the parameters
    that are [undefined] or [null]. *)
Definition sent_params (ps : list (string * value)) : list (string * value) :=
  List.filter (fun kv => negb (nullish (snd kv))) ps.

(** The call [axios.get(`${req.protocol}://${req.get('host')}${route}`,
    { params })] makes to one of the server's own routes. *)
Definition loopback_call (req : Request) (route : string)
    (ps : list (string * value)) : Outbound :=
  {| url := protocol req +:+ "://" +:+ host req +:+ route;
     params := ps; headers := [] |}.

(** The request the route then sees. Query values are strings, or arrays
    and objects of strings, which the query string carries over as they
    are. *)
Definition forwarded_request (req : Request) (route : string)
    (ps : list (string * value)) : Request :=
  {| protocol := protocol req; host := host req; path := route;
     query := sent_params ps |}.

(** A job record as the caller of a route reads it out of the JSON body of
    the answer: a field that is [undefined] is left out of the body and
    read back as [undefined]. *)
Definition received (r : JobRecord) : JobRecord :=
  {| id := through_json (id r);
     title := through_json (title r);
     company := through_json (company r);
     location := through_json (location r);
     salary := through_json (salary r);
     description := through_json (description r);
     job_url := through_json (job_url r);
     posted := through_json (posted r);
     source := through_json (source r) |}.

(** The promise of the [n]-th outbound call, a loopback call, with its
    [.catch(error => ({ data: { success: false, jobs: [] } }))]: what it
    settles to is [result.data.jobs]. A call that gets through runs the
    route handler, and the jobs of a 2xx answer come back through its JSON
    body; axios rejects on a 500 answer. A route that ends with an
    exception sends no answer: the call is taken to fail then, as it does
    when the connection is closed on it. *)
Definition loopback_promise (req : Request) (route : string)
    (handler : Request -> M Response) (ps : list (string * value)) (n : nat)
    : M (option (list JobRecord)) :=
  fun w =>
    if loopback_delivered h n (loopback_call req route ps) then
      match handler (forwarded_request req route ps) w with
      | (Ok resp, w') =>
          if (200 <=? status resp)%nat && (status resp <? 300)%nat
          then (Ok (option_map (List.map received) (body_jobs (body resp))), w')
          else (Ok (Some []), w')
      | (Throw _, w') => (Ok (Some []), w')
      end
    else (Ok (Some []), w).

(** [axios.get(...).catch(...)] to one of the server's own routes: the call
    is issued at once, and what is returned is its promise, which settles
    later. *)
Definition loopback_get (req : Request) (route : string)
    (handler : Request -> M Response) (ps : list (string * value))
    : M (M (option (list JobRecord))) :=
  fun w =>
    (Ok (loopback_promise req route handler ps (length (calls w))),
     {| reads := reads w; calls := calls w ++ [loopback_call req route ps] |}).

Fixpoint findIndex_from {A} (p : nat -> A -> bool) (start : nat) (l : list A)
    : option nat :=
  match l with
  | [] => None
  | x :: r => if p start x then Some start else findIndex_from p (S start) r
  end.

(** [l.findIndex(p)]; [None] stands for -1. *)
Definition findIndex {A} (p : nat -> A -> bool) (l : list A) : option nat :=
  findIndex_from p 0 l.

Fixpoint filter_from {A} (p : A -> nat -> bool) (start : nat) (l : list A) : list A :=
  match l with
  | [] => []
  | x :: r => if p x start then x :: filter_from p (S start) r
              else filter_from p (S start) r
  end.

(** [l.filter((x, index) => p)] *)
Definition filter_indexed {A} (p : A -> nat -> bool) (l : list A) : list A :=
  filter_from p 0 l.

(** [j.title === job.title && j.company === job.company] *)
Definition same_pair (same_ref : bool) (j job : JobRecord) : bool :=
  strict_equals same_ref (title j) (title job)
  && strict_equals same_ref (company j) (company job).

(** [allJobs.filter((job, index, self) =>
       index === self.findIndex(j => j.title === job.title
                                     && j.company === job.company))] *)
Definition uniqueJobs (allJobs : list JobRecord) : list JobRecord :=
  filter_indexed
    (fun job index =>
       match findIndex (fun k j => same_pair (Nat.eqb k index) j job) allJobs with
       | Some i => Nat.eqb index i
       | None => false
       end)
    allJobs.

(** The data identifiers the catch block of the combined search can see.
    [req], [res], [error] and the module-level declarations are in scope;
    the [const] bindings of the try block ([keywords], [location],
    [sources], ...) are not. *)
Definition search_catch_scope : list (string * value) := [].

(** Reading an identifier. *)
Definition resolve (scope : list (string * value)) (x : string) : Result value :=
  match List.find (fun kv => String.eqb (fst kv) x) scope with
  | Some kv => Ok (snd kv)
  | None => Throw (ReferenceError (x +:+ " is not defined"))
  end.

(** [app.get('/api/jobs/search', ...)]. The three loopback calls are issued
    one after the other, and only then awaited together. *)
Definition search_handler (req : Request) : M Response :=
  try_catch
    (let keywords := query_get req "keywords" in
     let location := query_get req "location" in
     let sources := default_to (query_get req "sources") (JStr "adzuna,reed,usajobs") in
     do! sourceList <- lift (split_method sources);
     let ps := [("keywords", keywords); ("location", location)] in
     do! pushed_adzuna <-
       (if includes "adzuna" sourceList
        then do! p <- loopback_get req "/api/jobs/adzuna" adzuna_handler ps; ret [p]
        else ret []);
     do! pushed_reed <-
       (if includes "reed" sourceList
        then do! p <- loopback_get req "/api/jobs/reed" reed_handler ps; ret [p]
        else ret []);
     do! pushed_usajobs <-
       (if includes "usajobs" sourceList
        then do! p <- loopback_get req "/api/jobs/usajobs" usajobs_handler ps; ret [p]
        else ret []);
     let promises := pushed_adzuna ++ pushed_reed ++ pushed_usajobs in
     do! results <- promise_all promises;
     let allJobs := flat_map (fun result => default [] result) results in
     ret {| status := 200;
            body := CombinedOk (uniqueJobs allJobs) (length (uniqueJobs allJobs))
                               sourceList |})
    (fun error =>
       do! keywords <- lift (resolve search_catch_scope "keywords");
       do! location <- lift (resolve search_catch_scope "location");
       do! jobs <- getFallbackJobs keywords location (JStr "Multiple Sources");
       ret {| status := 500; body := Failed "Search failed" jobs |}).

(* ===================================================================== *)
(** ** Health check *)
(* ===================================================================== *)

(** [app.get('/api/health', ...)] *)
Definition health_handler (req : Request) : M Response :=
  do! now <- Date_now;
  ret {| status := 200;
         body := HealthBody "OK" (toISOString h now)
                   (truthy (adzuna_appId keys))
                   (truthy (reed_key keys))
                   (truthy (usajobs_key keys)) |}.

(** The routes of the application; a path without a route has none. *)
Definition route (req : Request) : option (M Response) :=
  if String.eqb (path req) "/api/jobs/adzuna" then Some (adzuna_handler req)
  else if String.eqb (path req) "/api/jobs/reed" then Some (reed_handler req)
  else if String.eqb (path req) "/api/jobs/usajobs" then Some (usajobs_handler req)
  else if String.eqb (path req) "/api/jobs/search" then Some (search_handler req)
  else if String.eqb (path req) "/api/health" then Some (health_handler req)
  else None.

(** What happens to a request once the middleware has let it through: its
    route handler runs, or the framework answers 404 for a path that has
    no route. *)
Definition routed (req : Request) : M Response :=
  match route req with
  | Some handler => handler
  | None => ret {| status := 404; body := NotFoundPage (path req) |}
  end.

End Adapters.

(* ===================================================================== *)
(** ** Rate limiting *)
(* ===================================================================== *)

Record Bucket : Type := {
  consumed : nat;
  expires : Z       (* ms *)
}.

(** [points: 10] *)
Definition points : nat := 10.
(** [duration: 60], in seconds *)
Definition duration : Z := 60.

(** Modelled from the spec: [RateLimiterMemory.consume] of the
    rate-limiter-flexible package, which is not part of the sources. A
    fixed window per key: the first request of a key opens a window of
    [duration] seconds, every request in the window consumes one point, and
    a request is refused once more than [points] were consumed; after the
    window the budget is whole again. [true] is the resolved promise. *)
Definition consume (store : gmap string Bucket) (key : string) (now : Z)
    : bool * gmap string Bucket :=
  let fresh := ((1 <=? points)%nat,
                <[key := {| consumed := 1; expires := now + duration * 1000 |}]> store) in
  match store !! key with
  | Some b =>
      if now <? expires b
      then ((S (consumed b) <=? points)%nat,
            <[key := {| consumed := S (consumed b); expires := expires b |}]> store)
      else fresh
  | None => fresh
  end.

(** The middleware
    [rateLimiter.consume(req.ip).then(() => next())
       .catch(() => res.status(429).json({ error: 'Too many requests' }))]. *)
Definition rate_limit (store : gmap string Bucket) (client_ip : string) (now : Z)
    (next : M Response) : M Response * gmap string Bucket :=
  let (resolved, store') := consume store client_ip now in
  (if resolved then next
   else ret {| status := 429; body := ErrorOnly "Too many requests" |},
   store').

(** The application: every request, whatever its path, goes through the
    rate limiter first and is routed only when that lets it through. *)
Definition app (env : gmap string string) (store : gmap string Bucket)
    (client_ip : string) (now : Z) (req : Request)
    : M Response * gmap string Bucket :=
  rate_limit store client_ip now (routed (API_KEYS env) req).

(** The verdicts of the limiter on a sequence of arrivals (client address
    and time), each with the address it was given for. *)
Fixpoint gate_run (store : gmap string Bucket) (arrivals : list (string * Z))
    : list (string * bool) :=
  match arrivals with
  | [] => []
  | (client_ip, now) :: r =>
      let (resolved, store') := consume store client_ip now in
      (client_ip, resolved) :: gate_run store' r
  end.

End Server.

(* ===================================================================== *)
(** ** A concrete host *)
(* ===================================================================== *)

(** The civil date (year, month, day) of a day number counted from
    1970-01-01. *)
Definition civil_from_days (days : Z) : Z * Z * Z :=
  let z := days + 719468 in
  let era := z / 146097 in
  let doe := z - era * 146097 in
  let yoe := (doe - doe / 1460 + doe / 36524 - doe / 146096) / 365 in
  let doy := doe - (365 * yoe + yoe / 4 - yoe / 100) in
  let mp := (5 * doy + 2) / 153 in
  let d := doy - (153 * mp + 2) / 5 + 1 in
  let m := if mp <? 10 then mp + 3 else mp - 9 in
  (yoe + era * 400 + (if m <=? 2 then 1 else 0), m, d).

(** [toLocaleDateString] of a host whose locale is en-US and whose time
    zone is UTC: month/day/year. *)
Definition en_US_date (d : option Z) : string :=
  match d with
  | None => "Invalid Date"
  | Some t =>
      let '(y, m, dd) := civil_from_days (t / 86400000) in
      pretty m +:+ "/" +:+ pretty dd +:+ "/" +:+ pretty y
  end.

Fixpoint zeros (n : nat) : string :=
  match n with
  | O => ""
  | S k => String "0" (zeros k)
  end.

(** The decimal expansion of a number whose denominator is a power of two.
    For a number that is not an integer, of magnitude from 1e-6 up and
    with at most 15 significant digits, it is what JavaScript writes; the
    hosts below are asked for the text of no other number. *)
Definition decimal_text (n : number) : string :=
  match n with
  | Infinity false => "Infinity"
  | Infinity true => "-Infinity"
  | Finite q =>
      let r := Qred q in
      let a := Z.abs (Qnum r) in
      let d := Zpos (Qden r) in
      let k := Z.log2 d in
      let digits := pretty ((a mod d) * 10 ^ k / d) in
      (if Qnum r <? 0 then "-" else "") +:+ pretty (a / d) +:+ "."
      +:+ zeros (Z.to_nat k - String.length digits) +:+ digits
  end.

(** A host with the given clock and provider answers: en-US dates, no date
    string understood, every loopback call delivered. *)
Definition host_of (clock : nat -> Z) (answers : Outbound -> option value) : Host :=
  {| time_at := clock;
     Date_parse := fun _ => None;
     toLocaleDateString := en_US_date;
     toISOString := fun t => pretty t;
     base64 := fun s => s;
     Number_toString := decimal_text;
     upstream := fun _ o => answers o;
     loopback_delivered := fun _ _ => true |}.

Definition world0 : World := {| reads := 0; calls := [] |}.

(** A plain GET request with the given path and query. *)
Definition get_request (p : string) (q : list (string * value)) : Request :=
  {| protocol := "http"; host := "localhost:3001"; path := p; query := q |}.

(** A host whose clock stands still and whose providers do not answer. *)
Definition quiet_host : Host := host_of (fun _ => 1793646000000) (fun _ => None).

(** A query value that cannot be converted to a string: what Express 4
    parses [?keywords[toString]=x] to. *)
Definition unprintable : value := JObj [("toString", JStr "x")].

(* ===================================================================== *)
(** ** Statements about responses *)
(* ===================================================================== *)

(** The answer of a provider route as the interface description words it:
    success with a non-empty list of jobs, or status 500, no success and
    exactly three jobs. *)
Definition success_or_three_fallbacks (resp : Response) : bool :=
  match body resp with
  | ProviderOk jobs _ => negb (length jobs =? 0)%nat
  | Failed _ jobs => (status resp =? 500)%nat && (length jobs =? 3)%nat
  | _ => false
  end.

(** A valid query: its keywords can be converted to a string, as every
    string and every absent parameter can. *)
Definition valid_query (req : Request) : Prop :=
  convertible (query_get req "keywords") = true.

(** The answer of a provider route that went for the call [request] in
    world [w]: status 200 with one job per item of the provider's result
    list, or status 500 with the three records of the fallback generator. *)
Definition provider_answer (h : Host) (w : World) (request : Result Outbound)
    (items_of : value -> Result value) (keywords location : value)
    (label : string) (resp : Response) : Prop :=
  (exists o data items jobs total,
      request = Ok o
      /\ upstream h (length (calls w)) o = Some data
      /\ items_of data = Ok (JArr items)
      /\ length jobs = length items
      /\ resp = {| status := 200; body := ProviderOk jobs total |})
  \/ (exists jobs message w1,
      fst (getFallbackJobs h keywords location (JStr label) w1) = Ok jobs
      /\ length jobs = 3%nat
      /\ resp = {| status := 500; body := Failed message jobs |}).

(** The world after the try block of a provider route failed: the call was
    made, unless the request could not be put together. *)
Definition after_call (w : World) (request : Result Outbound) : World :=
  match request with
  | Ok o => {| reads := reads w; calls := calls w ++ [o] |}
  | Throw _ => w
  end.

(** How a provider route ends: with the mapped jobs of the provider's
    answer, or the way its catch block ends. *)
Definition provider_outcome (h : Host) (w : World) (request : Result Outbound)
    (items_of : value -> Result value) (job_of : value -> Result JobRecord)
    (keywords location : value) (label message : string)
    (result : Result Response * World) : Prop :=
  (exists o data items jobs total,
      request = Ok o
      /\ upstream h (length (calls w)) o = Some data
      /\ items_of data = Ok (JArr items)
      /\ mapM job_of items = Ok jobs
      /\ result = (Ok {| status := 200; body := ProviderOk jobs total |},
                   after_call w request))
  \/ result
     = bind (getFallbackJobs h keywords location (JStr label))
            (fun jobs => ret {| status := 500; body := Failed message jobs |})
            (after_call w request).

(** A provider that knows no matching job. *)
Definition no_results (o : Outbound) : option value :=
  Some (JObj [("results", JArr []); ("count", JNum (whole 0))]).

(** The defaults of a provider query as the interface description gives
    them, for every provider alike. *)
Definition described_keywords : value := JStr "software engineer".
Definition described_location : value := JStr "london".
Definition described_page : value := JNum (whole 1).
Definition described_resultsPerPage : value := JNum (whole 20).







(* ===================================================================== *)
(** ** Statements about job records *)
(* ===================================================================== *)

Inductive Provider : Type := Adzuna | Reed | USAJobs.

(** The field mapping of each provider route. *)
Definition mapped (h : Host) (p : Provider) : value -> Result JobRecord :=
  match p with
  | Adzuna => adzuna_job h
  | Reed => reed_job h
  | USAJobs => usajobs_job h
  end.

(** The currency sign of the provider's market. *)
Definition currency (p : Provider) : string :=
  match p with
  | Adzuna | Reed => "£"
  | USAJobs => "$"
  end.

(** Where a provider's result item holds the lower and the upper end of
    the salary range. *)
Definition salary_minimum (p : Provider) (item : value) : value :=
  match p with
  | Adzuna => prop_of item "salary_min"
  | Reed => prop_of item "minimumSalary"
  | USAJobs =>
      opt_prop (opt_index (prop_of (prop_of item "MatchedObjectDescriptor")
                                   "PositionRemuneration") 0) "MinimumRange"
  end.

Definition salary_maximum (p : Provider) (item : value) : value :=
  match p with
  | Adzuna => prop_of item "salary_max"
  | Reed => prop_of item "maximumSalary"
  | USAJobs =>
      opt_prop (opt_index (prop_of (prop_of item "MatchedObjectDescriptor")
                                   "PositionRemuneration") 0) "MaximumRange"
  end.

(** The salary text in the words of the interface description: currency
    sign and minimum, " - ", currency sign and maximum, a number that is
    not [present] left out, and a placeholder when neither is present.
    [show] writes a number (or whatever the provider put in its place) as
    JavaScript does. *)
Definition salary_display (present : value -> bool) (show : value -> Result string)
    (sign : string) (lo hi : value) : Result value :=
  if present lo || present hi
  then
    try! low <- (if present lo then show lo else Ok "");
    try! high <- (if present hi then show hi else Ok "");
    Ok (JStr (sign +:+ low +:+ " - " +:+ sign +:+ high))
  else Ok (JStr "Salary not specified").

(** The item holds a value under the name. *)
Definition given (v : value) : bool := negb (nullish v).



(** The fields a provider mapping takes over from the provider's item as
    they are. *)
Definition copied (p : Provider) (item : value) (r : JobRecord) : Prop :=
  match p with
  | Adzuna =>
      id r = prop_of item "id"
      /\ title r = prop_of item "title"
      /\ description r = prop_of item "description"
      /\ job_url r = prop_of item "redirect_url"
  | Reed =>
      id r = prop_of item "jobId"
      /\ title r = prop_of item "jobTitle"
      /\ company r = prop_of item "employerName"
      /\ location r = prop_of item "locationName"
      /\ description r = prop_of item "jobDescription"
      /\ job_url r = prop_of item "jobUrl"
  | USAJobs =>
      let job := prop_of item "MatchedObjectDescriptor" in
      id r = prop_of job "MatchedObjectId"
      /\ title r = prop_of job "PositionTitle"
      /\ company r = prop_of job "OrganizationName"
      /\ location r = prop_of job "PositionLocationDisplay"
      /\ description r
         = prop_of (prop_of (prop_of job "UserArea") "Details") "JobSummary"
      /\ job_url r = js_or (opt_index (prop_of job "ApplyURI") 0)
                           (prop_of job "PositionURI")
  end.

(** Sample provider items. *)
Definition usajobs_item : value :=
  JObj [("MatchedObjectDescriptor",
         JObj [("MatchedObjectId", JStr "771");
               ("PositionTitle", JStr "IT Specialist");
               ("OrganizationName", JStr "Department of Energy");
               ("PositionLocationDisplay", JStr "Washington, DC");
               ("PositionRemuneration",
                JArr [JObj [("MinimumRange", JStr "50000.0");
                            ("MaximumRange", JStr "80000.0")]]);
               ("UserArea", JObj [("Details", JObj [("JobSummary", JStr "Summary")])]);
               ("PositionURI", JStr "https://www.usajobs.gov/job/771");
               ("PositionStartDate", JNum (whole 1793646000000))])].

(** An Adzuna item with a salary range from 35000.5 to 42000. *)
Definition paid_item : value :=
  JObj [("id", JStr "5"); ("title", JStr "Analyst");
        ("salary_min", JNum (Finite (70001 # 2)));
        ("salary_max", JNum (whole 42000));
        ("description", JStr "Analysis"); ("redirect_url", JStr "https://a.example/5");
        ("created", JNum (whole 1793646000000))].

(** An Adzuna item whose minimum salary is 0 and which has no maximum. *)
Definition unpaid_item : value :=
  JObj [("id", JStr "9"); ("title", JStr "Volunteer"); ("salary_min", JNum (whole 0));
        ("description", JStr "Unpaid"); ("redirect_url", JStr "https://a.example/9");
        ("created", JNum (whole 1793646000000))].


(* ===================================================================== *)
(** ** Statements about the combined search *)
(* ===================================================================== *)

(** The parameters the combined search forwards. *)
Definition forwarded_params (req : Request) : list (string * value) :=
  [("keywords", query_get req "keywords"); ("location", query_get req "location")].

(** The world once a loopback call was issued, when the provider was asked
    for. *)
Definition issued (req : Request) (route : string) (selected : bool) (w : World)
    : World :=
  if selected
  then {| reads := reads w;
          calls := calls w ++ [loopback_call req route (forwarded_params req)] |}
  else w.

(** What one provider adds to the merged list: the jobs of its answer when
    it was asked for and its call, the [n]-th, ended with success; nothing
    otherwise. *)
Definition contribution (h : Host) (req : Request) (route : string)
    (handler : Request -> M Response) (selected : bool) (n : nat) (w : World)
    : list JobRecord * World :=
  if selected then
    match loopback_promise h req route handler (forwarded_params req) n w with
    | (Ok r, w') => (default [] r, w')
    | (Throw _, w') => ([], w')
    end
  else ([], w).

(** The merged list: the three calls are issued, and then Adzuna's jobs,
    Reed's and those of USAJobs are put one after the other, each
    provider's in the order it gave them. *)
Definition merged (h : Host) (keys : ApiKeys) (req : Request)
    (with_adzuna with_reed with_usajobs : bool) (w : World)
    : list JobRecord * World :=
  let w1 := issued req "/api/jobs/adzuna" with_adzuna w in
  let w2 := issued req "/api/jobs/reed" with_reed w1 in
  let w3 := issued req "/api/jobs/usajobs" with_usajobs w2 in
  let '(a, w4) := contribution h req "/api/jobs/adzuna" (adzuna_handler h keys)
                               with_adzuna (length (calls w)) w3 in
  let '(b, w5) := contribution h req "/api/jobs/reed" (reed_handler h keys)
                               with_reed (length (calls w1)) w4 in
  let '(c, w6) := contribution h req "/api/jobs/usajobs" (usajobs_handler h keys)
                               with_usajobs (length (calls w2)) w5 in
  (a ++ b ++ c, w6).

(** What the combined search takes from the outcome of a route: the jobs
    of an answer with a 2xx status, as its JSON body gives them. *)
Definition taken (result : Result Response * World) : list JobRecord :=
  match fst result with
  | Ok resp =>
      if (200 <=? status resp)%nat && (status resp <? 300)%nat
      then List.map received (default [] (body_jobs (body resp)))
      else []
  | Throw _ => []
  end.


(** Two different records have the same title and the same company, as
    the filter of the combined search compares them. *)
Definition key_eqb (j job : JobRecord) : bool := same_pair false j job.

(** Keeping the first record of every class of [eqb]: a record is dropped
    when one of the records before it is in its class. *)
Fixpoint keep_first {A} (eqb : A -> A -> bool) (seen l : list A) : list A :=
  match l with
  | [] => []
  | x :: r =>
      if existsb (fun s => eqb s x) seen then keep_first eqb (seen ++ [x]) r
      else x :: keep_first eqb (seen ++ [x]) r
  end.

(** A string, a number, a boolean, [null] or nothing at all. *)
Definition primitive (v : value) : bool :=
  match v with
  | JArr _ | JObj _ => false
  | _ => true
  end.

(** The same value: the same string, letter for letter, the same number,
    the same boolean, both [null] or both missing; lists with the same
    elements in the same order; objects with the same fields. *)
Fixpoint identical (a b : value) : bool :=
  match a, b with
  | JUndefined, JUndefined => true
  | JNull, JNull => true
  | JBool x, JBool y => Bool.eqb x y
  | JNum x, JNum y => number_eqb x y
  | JStr x, JStr y => bool_decide (x = y)
  | JArr xs, JArr ys =>
      (fix all2 (l : list value) (m : list value) : bool :=
         match l, m with
         | [], [] => true
         | x :: l', y :: m' => identical x y && all2 l' m'
         | _, _ => false
         end) xs ys
  | JObj fs, JObj gs =>
      (fix all2 (l : list (string * value)) (m : list (string * value)) : bool :=
         match l, m with
         | [], [] => true
         | (k, x) :: l', (k', y) :: m' =>
             bool_decide (k = k') && identical x y && all2 l' m'
         | _, _ => false
         end) fs gs
  | _, _ => false
  end.

(** The record has the title [t] and the company [c]. *)
Definition has_pair (t c : value) (r : JobRecord) : bool :=
  identical (title r) t && identical (company r) c.

(** The two records have an identical (title, company) pair. *)
Definition identical_pair (j job : JobRecord) : bool :=
  has_pair (title job) (company job) j.

(** The title and the company of the record are primitive values. *)
Definition plain_key (r : JobRecord) : bool :=
  primitive (title r) && primitive (company r).

(** Some record of the list is in the class of a record before it, or of
    a record of [seen]. *)
Fixpoint repeats {A} (eqb : A -> A -> bool) (seen l : list A) : bool :=
  match l with
  | [] => false
  | x :: r => existsb (fun s => eqb s x) seen || repeats eqb (seen ++ [x]) r
  end.

Definition comma_free (s : string) : Prop :=
  forall i, String.get i s <> Some ","%char.

(** Providers that both know the job "Developer" at "Acme": Adzuna lists
    it twice, Reed once together with another job; USAJobs does not
    answer. *)
Definition overlapping_answers (o : Outbound) : option value :=
  if String.eqb (url o) "https://api.adzuna.com/v1/api/jobs/gb/search/1" then
    Some (JObj [("results",
                 JArr [JObj [("id", JStr "a1"); ("title", JStr "Developer");
                             ("company", JObj [("display_name", JStr "Acme")])];
                       JObj [("id", JStr "a2"); ("title", JStr "Developer");
                             ("company", JObj [("display_name", JStr "Acme")])]]);
                ("count", JNum (whole 2))])
  else if String.eqb (url o) "https://www.reed.co.uk/api/1.0/search" then
    Some (JObj [("results",
                 JArr [JObj [("jobId", JNum (whole 7)); ("jobTitle", JStr "Developer");
                             ("employerName", JStr "Acme")];
                       JObj [("jobId", JNum (whole 8)); ("jobTitle", JStr "developer");
                             ("employerName", JStr "Acme")];
                       JObj [("jobId", JNum (whole 9)); ("jobTitle", JStr "Developer");
                             ("employerName", JStr "Globex")]]);
                ("totalResults", JNum (whole 3))])
  else None.

Definition overlapping_host : Host := host_of (fun _ => 1793646000000) overlapping_answers.

Definition job_a1 : JobRecord :=
  {| id := JStr "a1"; title := JStr "Developer"; company := JStr "Acme";
     location := JStr "Location not specified"; salary := JStr "Salary not specified";
     description := JUndefined; job_url := JUndefined;
     posted := JStr "Invalid Date"; source := JStr "Adzuna" |}.

Definition job_r7 : JobRecord :=
  {| id := JNum (whole 7); title := JStr "Developer"; company := JStr "Acme";
     location := JUndefined; salary := JStr "Salary not specified";
     description := JUndefined; job_url := JUndefined;
     posted := JStr "Invalid Date"; source := JStr "Reed" |}.

Definition job_r8 : JobRecord :=
  {| id := JNum (whole 8); title := JStr "developer"; company := JStr "Acme";
     location := JUndefined; salary := JStr "Salary not specified";
     description := JUndefined; job_url := JUndefined;
     posted := JStr "Invalid Date"; source := JStr "Reed" |}.

Definition job_r9 : JobRecord :=
  {| id := JNum (whole 9); title := JStr "Developer"; company := JStr "Globex";
     location := JUndefined; salary := JStr "Salary not specified";
     description := JUndefined; job_url := JUndefined;
     posted := JStr "Invalid Date"; source := JStr "Reed" |}.

(** A combined search that names Reed before Adzuna. *)
Definition reed_first_search : Request :=
  get_request "/api/jobs/search" [("sources", JStr "reed,adzuna")].

(** What the Reed route answers on [overlapping_host]. *)
Definition reed_overlap_answer : Response :=
  {| status := 200; body := ProviderOk [job_r7; job_r8; job_r9] (JNum (whole 3)) |}.




(** The request with its [sources] parameter set to [s]. *)
Definition with_sources (req : Request) (s : string) : Request :=
  {| protocol := protocol req; host := host req; path := path req;
     query := ("sources", JStr s) :: query req |}.

(** The [jobs] of the answer a handler gave, if it gave one. *)
Definition answer_jobs (result : Result Response * World) : option (list JobRecord) :=
  match fst result with
  | Ok resp => body_jobs (body resp)
  | Throw _ => None
  end.

(* ===================================================================== *)
(** ** Statements about the rate limiter *)
(* ===================================================================== *)

(** The arrivals of one client. *)
Definition arrivals_of (client : string) (arrivals : list (string * Z))
    : list (string * Z) :=
  List.filter (fun a => String.eqb (fst a) client) arrivals.

(** The verdicts given to one client, in order. *)
Definition verdicts_for (client : string) (verdicts : list (string * bool)) : list bool :=
  List.map snd (List.filter (fun v => String.eqb (fst v) client) verdicts).

(** At time [t] the client has no window running. *)
Definition window_over (store : gmap string Bucket) (client : string) (t : Z) : Prop :=
  match store !! client with
  | Some b => expires b <= t
  | None => True
  end.

(** The store of the limiter after a sequence of arrivals. *)
Fixpoint store_after (store : gmap string Bucket) (arrivals : list (string * Z))
    : gmap string Bucket :=
  match arrivals with
  | [] => store
  | (client_ip, now) :: r => store_after (snd (consume store client_ip now)) r
  end.

Definition too_many_requests : Response :=
  {| status := 429; body := ErrorOnly "Too many requests" |}.

(** Eleven further requests of one client within eleven seconds of its
    first, with a request of another client in between. *)
Definition burst : list (string * Z) :=
  [ ("10.0.0.1", 1000); ("10.0.0.1", 2000); ("10.0.0.2", 2500);
    ("10.0.0.1", 3000); ("10.0.0.1", 4000); ("10.0.0.1", 5000); ("10.0.0.1", 6000);
    ("10.0.0.1", 7000); ("10.0.0.1", 8000); ("10.0.0.1", 9000); ("10.0.0.1", 10000);
    ("10.0.0.1", 11000) ].

(* ===================================================================== *)
(** ** Statements about the routes as a whole *)
(* ===================================================================== *)

(** The status of the answer a handler gave, if it gave one. *)
Definition answer_status (result : Result Response * World) : option nat :=
  match fst result with
  | Ok resp => Some (status resp)
  | Throw _ => None
  end.

Definition is_ok {A} (r : Result A) : bool :=
  match r with
  | Ok _ => true
  | Throw _ => false
  end.

(** A result list every item of which can be mapped. *)
Definition mappable (item_ok : value -> bool) (results : value) : bool :=
  match results with
  | JArr items => forallb item_ok items
  | _ => false
  end.

(** The two ends of a salary range can be written: when one of them is
    there, each can be converted to a string. *)
Definition salary_ok (lo hi : value) : bool :=
  if truthy lo || truthy hi then convertible lo && convertible hi else true.

(** The items the Adzuna mapping can read: not [null], with a salary range
    and a date that can be converted. *)
Definition adzuna_item_ok (item : value) : bool :=
  negb (nullish item)
  && salary_ok (prop_of item "salary_min") (prop_of item "salary_max")
  && convertible (prop_of item "created").

Definition reed_item_ok (item : value) : bool :=
  negb (nullish item)
  && salary_ok (prop_of item "minimumSalary") (prop_of item "maximumSalary")
  && convertible (prop_of item "date").

(** The items the USAJobs mapping can read: the item, its descriptor, the
    descriptor's [UserArea] and the [Details] in it are all there, and the
    salary range and the start date can be converted. *)
Definition usajobs_item_ok (item : value) : bool :=
  negb (nullish item)
  && negb (nullish (prop_of item "MatchedObjectDescriptor"))
  && salary_ok (salary_minimum USAJobs item) (salary_maximum USAJobs item)
  && negb (nullish (prop_of (prop_of item "MatchedObjectDescriptor") "UserArea"))
  && negb (nullish (prop_of (prop_of (prop_of item "MatchedObjectDescriptor")
                                     "UserArea") "Details"))
  && convertible (prop_of (prop_of item "MatchedObjectDescriptor")
                          "PositionStartDate").

(** The request could be put together, and the provider answers it, made
    in world [w], with a body the route can use. *)
Definition usable_answer (h : Host) (w : World) (request : Result Outbound)
    (usable : value -> bool) : bool :=
  match request with
  | Ok o =>
      match upstream h (length (calls w)) o with
      | Some data => negb (nullish data) && usable data
      | None => false
      end
  | Throw _ => false
  end.

(** A host none of whose providers can be reached. *)
Definition unreachable (h : Host) : Prop :=
  forall n o, upstream h n o = None.

(** The value a route works with for a parameter the combined search
    forwards: the caller's, or the route's default when there is none. *)
Definition forwarded (v d : value) : value := if nullish v then d else v.



(** The titles and locations of the fallback records when the caller gave
    no keywords and no location. *)
Definition generic_titles : list value :=
  [JStr "Software Developer"; JStr "Senior Software Engineer";
   JStr "Software Specialist"].

Definition generic_locations : list value :=
  [JStr "Remote"; JStr "New York, NY"; JStr "San Francisco, CA"].

(** A host on which every loopback call gets through. *)
Definition loopback_reliable (h : Host) : Prop :=
  forall n o, loopback_delivered h n o = true.

(** The credential a provider call is made with: the environment variable
    when it is set and not empty, the placeholder otherwise. *)
Definition credential (env : gmap string string) (name placeholder : string) : string :=
  match env !! name with
  | Some s => if String.eqb s "" then placeholder else s
  | None => placeholder
  end.

(** A 200 answer that carries the provider's items, mapped one by one and
    in the provider's order, and as total the count the provider gave. *)
Definition carries (job_of : value -> Result JobRecord) (items : list value)
    (count : value) (resp : Response) : Prop :=
  exists jobs,
    resp = {| status := 200; body := ProviderOk jobs count |}
    /\ Forall2 (fun item job => job_of item = Ok job) items jobs.

(* ===================================================================== *)
(** * Properties *)
(* ===================================================================== *)

(** ** Credentials and the health report *)

Lemma credential_fallback (env : gmap string string) (name placeholder : string) :
  js_or (env_get env name) (JStr placeholder)
  = JStr (match env !! name with
          | Some s => if String.eqb s "" then placeholder else s
          | None => placeholder
          end).
Proof.
  unfold js_or, env_get.
  destruct (env !! name) as [s|]; simpl; [|reflexivity].
  destruct (String.eqb s ""); reflexivity.
Qed.

Lemma credential_truthy (env : gmap string string) (name placeholder : string) :
  String.eqb placeholder "" = false ->
  truthy (js_or (env_get env name) (JStr placeholder)) = true.
Proof.
  intros Hp. rewrite credential_fallback. simpl.
  destruct (env !! name) as [s|]; [|now rewrite Hp].
  destruct (String.eqb s "") eqn:Hs; [now rewrite Hp | now rewrite Hs].
Qed.

(** C9. Whatever the environment holds, each credential is its variable
    when that is set and not empty and a fixed non-empty placeholder
    otherwise, so the health report answers 200 with all three service
    flags true. *)
Theorem health_services_always_true (h : Host) (env : gmap string string)
    (req : Request) (w : World) :
  adzuna_appId (API_KEYS env)
    = JStr (match env !! "ADZUNA_APP_ID" with
            | Some s => if String.eqb s "" then "your_adzuna_app_id" else s
            | None => "your_adzuna_app_id"
            end)
  /\ reed_key (API_KEYS env)
    = JStr (match env !! "REED_API_KEY" with
            | Some s => if String.eqb s "" then "your_reed_api_key" else s
            | None => "your_reed_api_key"
            end)
  /\ usajobs_key (API_KEYS env)
    = JStr (match env !! "USAJOBS_API_KEY" with
            | Some s => if String.eqb s "" then "your_usajobs_api_key" else s
            | None => "your_usajobs_api_key"
            end)
  /\ health_handler h (API_KEYS env) req w
    = (Ok {| status := 200;
             body := HealthBody "OK" (toISOString h (time_at h (reads w)))
                                true true true |},
       {| reads := S (reads w); calls := calls w |}).
Proof.
  repeat split; try apply credential_fallback.
  unfold health_handler, bind, Date_now, ret, API_KEYS. simpl.
  rewrite !credential_truthy by reflexivity. reflexivity.
Qed.

(** ** Conversion to a string *)

Lemma convertible_js_or (v : value) (s : string) :
  convertible (js_or v (JStr s)) = convertible v.
Proof. unfold js_or. destruct v as [| |[|]|n|t|items|fs]; simpl; try reflexivity.
  - now destruct (negb (number_is_zero n)).
  - now destruct (negb (String.eqb t "")).
Qed.

Lemma js_or_inconvertible (v d : value) : convertible v = false -> js_or v d = v.
Proof. unfold js_or. now destruct v. Qed.

Lemma toString_Ok (h : Host) (v : value) :
  convertible v = true -> toString h v = Ok (text (number_text h) v).
Proof. unfold toString, to_string. now intros ->. Qed.

Lemma toString_Throw (h : Host) (v : value) :
  convertible v = false ->
  toString h v = Throw (TypeError "Cannot convert object to primitive value").
Proof. unfold toString, to_string. now intros ->. Qed.

Lemma toString_string (h : Host) (s : string) : toString h (JStr s) = Ok s.
Proof. reflexivity. Qed.

(** ** The fallback generator and the provider routes *)

(** For keywords that can be converted to a string the generator returns
    its three records after six clock reads. *)
Lemma getFallbackJobs_Ok (h : Host) (keywords place label : value) (w : World) :
  convertible keywords = true ->
  getFallbackJobs h keywords place label w
  = (Ok [ {| id := JStr ("1-" +:+ pretty (time_at h (reads w)));
             title := JStr (text (number_text h) (js_or keywords (JStr "Software"))
                            +:+ " Developer");
             company := JStr "Tech Innovations Inc.";
             location := js_or place (JStr "Remote");
             salary := JStr "$80,000 - $120,000";
             description :=
               JStr ("We are looking for a skilled "
                     +:+ text (number_text h) (js_or keywords (JStr "software"))
                     +:+ " developer to join our growing team.");
             job_url :=
               JStr ("https://www.example.com/jobs/"
                     +:+ encodeURIComponent
                           (text (number_text h) (js_or keywords (JStr "software")))
                     +:+ "-developer");
             posted := JStr (toLocaleDateString h (time_clip (time_at h (1 + reads w))));
             source := js_or label (JStr "Fallback") |};
          {| id := JStr ("2-" +:+ pretty (time_at h (2 + reads w)));
             title := JStr ("Senior "
                            +:+ text (number_text h) (js_or keywords (JStr "Software"))
                            +:+ " Engineer");
             company := JStr "Digital Solutions Ltd.";
             location := js_or place (JStr "New York, NY");
             salary := JStr "$120,000 - $160,000";
             description :=
               JStr ("Senior "
                     +:+ text (number_text h) (js_or keywords (JStr "software"))
                     +:+ " position with leadership responsibilities.");
             job_url :=
               JStr ("https://www.example.com/jobs/senior-"
                     +:+ encodeURIComponent
                           (text (number_text h) (js_or keywords (JStr "software"))));
             posted := JStr (toLocaleDateString h
                               (time_clip (time_at h (3 + reads w) - 86400000)));
             source := js_or label (JStr "Fallback") |};
          {| id := JStr ("3-" +:+ pretty (time_at h (4 + reads w)));
             title := JStr (text (number_text h) (js_or keywords (JStr "Software"))
                            +:+ " Specialist");
             company := JStr "Tech Corp";
             location := js_or place (JStr "San Francisco, CA");
             salary := JStr "$90,000 - $130,000";
             description :=
               JStr ("Join our team as a "
                     +:+ text (number_text h) (js_or keywords (JStr "software"))
                     +:+ " specialist.");
             job_url :=
               JStr ("https://www.example.com/jobs/"
                     +:+ encodeURIComponent
                           (text (number_text h) (js_or keywords (JStr "software")))
                     +:+ "-specialist");
             posted := JStr (toLocaleDateString h
                               (time_clip (time_at h (5 + reads w) - 172800000)));
             source := js_or label (JStr "Fallback") |} ],
     {| reads := 6 + reads w; calls := calls w |}).
Proof.
  intros Hc. unfold getFallbackJobs, bind, lift, Date_now, ret.
  rewrite !toString_Ok by now rewrite convertible_js_or.
  reflexivity.
Qed.

(** For keywords that cannot be converted the first template literal
    throws, after the clock read of the first id. *)
Lemma getFallbackJobs_Throw (h : Host) (keywords place label : value) (w : World) :
  convertible keywords = false ->
  getFallbackJobs h keywords place label w
  = (Throw (TypeError "Cannot convert object to primitive value"),
     {| reads := S (reads w); calls := calls w |}).
Proof.
  intros Hc. unfold getFallbackJobs, bind, lift, Date_now, ret.
  rewrite !js_or_inconvertible by assumption.
  rewrite toString_Throw by assumption. reflexivity.
Qed.

Lemma getFallbackJobs_calls (h : Host) (keywords place label : value) (w : World) :
  calls (snd (getFallbackJobs h keywords place label w)) = calls w.
Proof.
  destruct (convertible keywords) eqn:Hc.
  - now rewrite getFallbackJobs_Ok.
  - now rewrite getFallbackJobs_Throw.
Qed.

Lemma mapM_length {A B} (f : A -> Result B) (l : list A) (l' : list B) :
  mapM f l = Ok l' -> length l' = length l.
Proof.
  revert l'. induction l as [|x r IH]; simpl; intros l' H.
  - now inversion H.
  - destruct (f x) as [y|e]; simpl in H; [|discriminate].
    destruct (mapM f r) as [ys|e]; simpl in H; [|discriminate].
    inversion H. simpl. f_equal. now apply IH.
Qed.

Lemma mapM_Forall2 {A B} (f : A -> Result B) (l : list A) (l' : list B) :
  mapM f l = Ok l' -> Forall2 (fun x y => f x = Ok y) l l'.
Proof.
  revert l'. induction l as [|x r IH]; simpl; intros l' H.
  - inversion H. constructor.
  - destruct (f x) as [y|e] eqn:Hx; simpl in H; [|discriminate].
    destruct (mapM f r) as [ys|e]; simpl in H; [|discriminate].
    inversion H. constructor; auto.
Qed.

Ltac fallback_branch := right; reflexivity.

Lemma adzuna_handler_outcome (h : Host) (keys : ApiKeys) (req : Request) (w : World) :
  provider_outcome h w (adzuna_request h keys req)
    (fun data => get_prop data "results") (adzuna_job h)
    (query_get req "keywords") (query_get req "location")
    "Adzuna" "Failed to fetch jobs from Adzuna"
    (adzuna_handler h keys req w).
Proof.
  unfold provider_outcome, adzuna_handler, try_catch, bind, lift, ret.
  destruct (adzuna_request h keys req) as [o|e] eqn:Hreq; [|fallback_branch].
  unfold axios_get, after_call.
  destruct (upstream h (length (calls w)) o) as [data|] eqn:Hup; [|fallback_branch].
  unfold get_prop.
  destruct (nullish data) eqn:Hn; [fallback_branch|].
  destruct (prop_of data "results") as [| |b|n|s|items|fs] eqn:Hr;
    try fallback_branch.
  simpl array_map.
  destruct (mapM (adzuna_job h) items) as [jobs|e] eqn:Hm; [|fallback_branch].
  left. exists o, data, items, jobs, (prop_of data "count").
  rewrite ?Hn, ?Hr. auto.
Qed.

Lemma reed_handler_outcome (h : Host) (keys : ApiKeys) (req : Request) (w : World) :
  provider_outcome h w (reed_request h keys req)
    (fun data => get_prop data "results") (reed_job h)
    (query_get req "keywords") (query_get req "location")
    "Reed" "Failed to fetch jobs from Reed"
    (reed_handler h keys req w).
Proof.
  unfold provider_outcome, reed_handler, try_catch, bind, lift, ret.
  destruct (reed_request h keys req) as [o|e] eqn:Hreq; [|fallback_branch].
  unfold axios_get, after_call.
  destruct (upstream h (length (calls w)) o) as [data|] eqn:Hup; [|fallback_branch].
  unfold get_prop.
  destruct (nullish data) eqn:Hn; [fallback_branch|].
  destruct (prop_of data "results") as [| |b|n|s|items|fs] eqn:Hr;
    try fallback_branch.
  simpl array_map.
  destruct (mapM (reed_job h) items) as [jobs|e] eqn:Hm; [|fallback_branch].
  left. exists o, data, items, jobs, (prop_of data "totalResults").
  rewrite ?Hn, ?Hr. auto.
Qed.

Lemma usajobs_handler_outcome (h : Host) (keys : ApiKeys) (req : Request) (w : World) :
  provider_outcome h w (usajobs_request h keys req)
    (fun data => try! SearchResult <- get_prop data "SearchResult";
                 get_prop SearchResult "SearchResultItems")
    (usajobs_job h)
    (query_get req "keywords") (query_get req "location")
    "USAJobs" "Failed to fetch jobs from USAJobs"
    (usajobs_handler h keys req w).
Proof.
  unfold provider_outcome, usajobs_handler, try_catch, bind, lift, ret.
  destruct (usajobs_request h keys req) as [o|e] eqn:Hreq; [|fallback_branch].
  unfold axios_get, after_call.
  destruct (upstream h (length (calls w)) o) as [data|] eqn:Hup; [|fallback_branch].
  unfold get_prop, rbind.
  destruct (nullish data) eqn:Hn; [fallback_branch|].
  destruct (nullish (prop_of data "SearchResult")) eqn:Hn'; [fallback_branch|].
  destruct (prop_of (prop_of data "SearchResult") "SearchResultItems")
    as [| |b|n|s|items|fs] eqn:Hr; try fallback_branch.
  simpl array_map.
  destruct (mapM (usajobs_job h) items) as [jobs|e] eqn:Hm; [|fallback_branch].
  left. exists o, data, items, jobs,
    (prop_of (prop_of data "SearchResult") "SearchResultCount").
  rewrite ?Hn, ?Hn', ?Hr. auto.
Qed.

(** A route whose keywords can be converted always answers. *)
Lemma provider_outcome_answer (h : Host) (w : World) (request : Result Outbound)
    (items_of : value -> Result value) (job_of : value -> Result JobRecord)
    (keywords place : value) (label message : string)
    (result : Result Response * World) :
  convertible keywords = true ->
  provider_outcome h w request items_of job_of keywords place label message result ->
  exists resp w',
    result = (Ok resp, w')
    /\ provider_answer h w request items_of keywords place label resp.
Proof.
  intros Hc [(o & data & items & jobs & total & Hreq & Hup & Hit & Hm & ->)| ->].
  - do 2 eexists. split; [reflexivity|].
    left. exists o, data, items, jobs, total.
    repeat split; auto. now apply mapM_length in Hm.
  - unfold bind. rewrite getFallbackJobs_Ok by assumption.
    do 2 eexists. split; [reflexivity|].
    right. do 2 eexists. exists (after_call w request).
    rewrite getFallbackJobs_Ok by assumption.
    split; [reflexivity|]. split; reflexivity.
Qed.

(** C1, as the code has it. For a query whose keywords can be converted to
    a string, each provider route answers: with status 200, [success: true]
    and one job per item of the provider's result list (none when the
    provider found nothing), or with status 500, [success: false] and the
    three fallback records. *)
Theorem provider_routes_answer (h : Host) (keys : ApiKeys) (req : Request) (w : World) :
  valid_query req ->
  (exists resp w',
      adzuna_handler h keys req w = (Ok resp, w')
      /\ provider_answer h w (adzuna_request h keys req)
           (fun data => get_prop data "results")
           (query_get req "keywords") (query_get req "location") "Adzuna" resp)
  /\ (exists resp w',
      reed_handler h keys req w = (Ok resp, w')
      /\ provider_answer h w (reed_request h keys req)
           (fun data => get_prop data "results")
           (query_get req "keywords") (query_get req "location") "Reed" resp)
  /\ (exists resp w',
      usajobs_handler h keys req w = (Ok resp, w')
      /\ provider_answer h w (usajobs_request h keys req)
           (fun data => try! SearchResult <- get_prop data "SearchResult";
                        get_prop SearchResult "SearchResultItems")
           (query_get req "keywords") (query_get req "location") "USAJobs" resp).
Proof.
  intros Hv. split; [|split].
  - exact (provider_outcome_answer _ _ _ _ _ _ _ _ _ _ Hv
             (adzuna_handler_outcome h keys req w)).
  - exact (provider_outcome_answer _ _ _ _ _ _ _ _ _ _ Hv
             (reed_handler_outcome h keys req w)).
  - exact (provider_outcome_answer _ _ _ _ _ _ _ _ _ _ Hv
             (usajobs_handler_outcome h keys req w)).
Qed.

Lemma provider_routes_answer_witness :
  valid_query (get_request "/api/jobs/reed" [("keywords", JStr "nurse")])
  /\ exists resp w',
      reed_handler quiet_host (API_KEYS ∅)
        (get_request "/api/jobs/reed" [("keywords", JStr "nurse")]) world0
      = (Ok resp, w')
      /\ status resp = 500%nat
      /\ success_or_three_fallbacks resp = true.
Proof.
  split; [reflexivity|].
  destruct (provider_routes_answer quiet_host (API_KEYS ∅)
              (get_request "/api/jobs/reed" [("keywords", JStr "nurse")]) world0
              eq_refl) as (_ & (resp & w' & Hrun & _) & _).
  exists resp, w'. split; [exact Hrun|].
  vm_compute in Hrun. inversion Hrun. split; reflexivity.
Defined.

(** C1 as stated fails when the provider finds nothing: for a valid query
    the Adzuna route then answers 200 with [success: true] and an empty
    list of jobs. *)
Lemma empty_results_answer :
  let req := get_request "/api/jobs/adzuna" [("keywords", JStr "zzz")] in
  let resp := {| status := 200; body := ProviderOk [] (JNum (whole 0)) |} in
  valid_query req
  /\ fst (adzuna_handler (host_of (fun _ => 0) no_results) (API_KEYS ∅) req world0)
     = Ok resp
  /\ body_success (body resp) = Some true
  /\ body_jobs (body resp) = Some []
  /\ success_or_three_fallbacks resp = false.
Proof. repeat split. Qed.

(** ** Query defaults and outbound calls *)

Lemma provider_outcome_calls (h : Host) (w : World) (request : Result Outbound)
    (items_of : value -> Result value) (job_of : value -> Result JobRecord)
    (keywords place : value) (label message : string)
    (result : Result Response * World) :
  provider_outcome h w request items_of job_of keywords place label message result ->
  calls (snd result) = calls (after_call w request).
Proof.
  intros [(o & data & items & jobs & total & Hreq & Hup & Hit & Hm & ->)| ->];
    [reflexivity|].
  unfold bind.
  pose proof (getFallbackJobs_calls h keywords place (JStr label)
                (after_call w request)) as Hc.
  destruct (getFallbackJobs h keywords place (JStr label) (after_call w request))
    as [[jobs|e] w1]; exact Hc.
Qed.

Lemma API_KEYS_reed (env : gmap string string) :
  reed_key (API_KEYS env) = JStr (credential env "REED_API_KEY" "your_reed_api_key").
Proof. apply credential_fallback. Qed.

Lemma API_KEYS_usajobs (env : gmap string string) :
  usajobs_key (API_KEYS env)
  = JStr (credential env "USAJOBS_API_KEY" "your_usajobs_api_key").
Proof. apply credential_fallback. Qed.

Lemma reed_request_Ok (h : Host) (env : gmap string string) (req : Request) :
  reed_request h (API_KEYS env) req
  = Ok {| url := "https://www.reed.co.uk/api/1.0/search";
          params :=
            [ ("keywords", default_to (query_get req "keywords") (JStr "software engineer"));
              ("location", default_to (query_get req "location") (JStr "london")) ];
          headers :=
            [ ("Authorization",
               "Basic " +:+ base64 h (credential env "REED_API_KEY" "your_reed_api_key"
                                      +:+ ":")) ] |}.
Proof. unfold reed_request. now rewrite API_KEYS_reed. Qed.

Lemma usajobs_request_Ok (h : Host) (env : gmap string string) (req : Request) :
  usajobs_request h (API_KEYS env) req
  = Ok {| url := "https://data.usajobs.gov/api/search";
          params :=
            [ ("Keyword", default_to (query_get req "keywords") (JStr "software"));
              ("LocationName",
               default_to (query_get req "location") (JStr "washington dc")) ];
          headers :=
            [ ("Authorization-Key",
               credential env "USAJOBS_API_KEY" "your_usajobs_api_key");
              ("User-Agent", "JobSearchApp/1.0") ] |}.
Proof. unfold usajobs_request. now rewrite API_KEYS_usajobs. Qed.

(** C7, as the code has it. A query parameter the caller leaves out gets a
    default: the Adzuna route uses keywords "software engineer", location
    "london", page 1 and 20 results per page; the Reed route the same
    keywords and location (it has no paging parameters); the USAJobs route
    keywords "software" and location "washington dc". The Reed and the
    USAJobs route make exactly one outbound call, the one built from these
    values; so does the Adzuna route, unless its [page] cannot be converted
    to a string: building the url then throws and no call is made. *)
Theorem adapter_defaults_and_single_call (h : Host) (env : gmap string string)
    (req : Request) (w : World) :
  adzuna_request h (API_KEYS env) req
  = (if convertible (default_to (query_get req "page") described_page)
     then Ok {| url := "https://api.adzuna.com/v1/api/jobs/gb/search/"
                       +:+ text (number_text h)
                                (default_to (query_get req "page") described_page);
                params :=
                  [ ("app_id", adzuna_appId (API_KEYS env));
                    ("app_key", adzuna_appKey (API_KEYS env));
                    ("what", default_to (query_get req "keywords") described_keywords);
                    ("where", default_to (query_get req "location") described_location);
                    ("results_per_page",
                     default_to (query_get req "resultsPerPage")
                                described_resultsPerPage);
                    ("content_type", JStr "application/json") ];
                headers := [] |}
     else Throw (TypeError "Cannot convert object to primitive value"))
  /\ text (number_text h) described_page = "1"
  /\ calls (snd (adzuna_handler h (API_KEYS env) req w))
     = calls w ++ match adzuna_request h (API_KEYS env) req with
                  | Ok o => [o]
                  | Throw _ => []
                  end
  /\ (exists o,
        reed_request h (API_KEYS env) req = Ok o
        /\ url o = "https://www.reed.co.uk/api/1.0/search"
        /\ params o
           = [ ("keywords", default_to (query_get req "keywords") described_keywords);
               ("location", default_to (query_get req "location") described_location) ]
        /\ calls (snd (reed_handler h (API_KEYS env) req w)) = calls w ++ [o])
  /\ (exists o,
        usajobs_request h (API_KEYS env) req = Ok o
        /\ url o = "https://data.usajobs.gov/api/search"
        /\ params o
           = [ ("Keyword", default_to (query_get req "keywords") (JStr "software"));
               ("LocationName",
                default_to (query_get req "location") (JStr "washington dc")) ]
        /\ calls (snd (usajobs_handler h (API_KEYS env) req w)) = calls w ++ [o]).
Proof.
  split.
  { unfold adzuna_request, toString, to_string.
    destruct (convertible _); reflexivity. }
  split; [reflexivity|].
  split.
  { rewrite (provider_outcome_calls _ _ _ _ _ _ _ _ _ _
               (adzuna_handler_outcome h (API_KEYS env) req w)).
    destruct (adzuna_request h (API_KEYS env) req); simpl;
      [reflexivity | now rewrite app_nil_r]. }
  split.
  - eexists. split; [apply reed_request_Ok|].
    split; [reflexivity|]. split; [reflexivity|].
    rewrite (provider_outcome_calls _ _ _ _ _ _ _ _ _ _
               (reed_handler_outcome h (API_KEYS env) req w)).
    now rewrite reed_request_Ok.
  - eexists. split; [apply usajobs_request_Ok|].
    split; [reflexivity|]. split; [reflexivity|].
    rewrite (provider_outcome_calls _ _ _ _ _ _ _ _ _ _
               (usajobs_handler_outcome h (API_KEYS env) req w)).
    now rewrite usajobs_request_Ok.
Qed.

(** C7 as stated fails twice. With no query parameter the USAJobs route
    asks the provider for "software" in "washington dc"; and the Adzuna
    route makes no call at all for a [page] that cannot be converted to a
    string, as [?page[toString]=x] is parsed to. *)
Lemma usajobs_defaults_and_unprintable_page :
  (exists o,
      usajobs_request quiet_host (API_KEYS ∅) (get_request "/api/jobs/usajobs" []) = Ok o
      /\ params o = [("Keyword", JStr "software"); ("LocationName", JStr "washington dc")]
      /\ lookup_field "Keyword" (params o) <> described_keywords
      /\ lookup_field "LocationName" (params o) <> described_location)
  /\ answer_status (adzuna_handler quiet_host (API_KEYS ∅)
                      (get_request "/api/jobs/adzuna" [("page", unprintable)]) world0)
     = Some 500%nat
  /\ calls (snd (adzuna_handler quiet_host (API_KEYS ∅)
                   (get_request "/api/jobs/adzuna" [("page", unprintable)]) world0))
     = [].
Proof.
  split; [|split; reflexivity].
  eexists. split; [reflexivity|]. repeat split; discriminate.
Qed.

(** ** The records of the fallback generator *)






(** ** The field mappings *)

Lemma truthy_js_or (a b : value) : truthy (js_or a b) = truthy a || truthy b.
Proof. unfold js_or. destruct (truthy a) eqn:Ha; simpl; auto. Qed.

Lemma toString_or_empty (h : Host) (a : value) :
  toString h (js_or a (JStr "")) = if truthy a then toString h a else Ok "".
Proof. unfold js_or. now destruct (truthy a). Qed.

Lemma falsy_convertible (v : value) : truthy v = false -> convertible v = true.
Proof. now destruct v. Qed.

Lemma get_prop_Ok (v : value) (name : string) (x : value) :
  get_prop v name = Ok x -> nullish v = false /\ x = prop_of v name.
Proof.
  unfold get_prop. destruct (nullish v); [discriminate|].
  intros H. inversion H. auto.
Qed.

Lemma get_prop_defined (v : value) (name : string) :
  nullish v = false -> get_prop v name = Ok (prop_of v name).
Proof. unfold get_prop. now intros ->. Qed.

Lemma safe_integer_whole (z : Z) : Z.abs z <= 2 ^ 53 -> safe_integer (whole z) = Some z.
Proof.
  intros Hz. unfold safe_integer, whole, inject_Z. cbn [Qnum Qden].
  rewrite Z.mod_1_r, Z.div_1_r.
  apply Z.leb_le in Hz. now rewrite Hz.
Qed.

(** What the salary conditions of the three routes compute. *)
Lemma salary_text_display (h : Host) (sign sep : string) (lo hi : value) :
  sep = " - " +:+ sign ->
  (if truthy (js_or lo hi)
   then
     try! low <- toString h (js_or lo (JStr ""));
     try! high <- toString h (js_or hi (JStr ""));
     Ok (JStr (sign +:+ low +:+ sep +:+ high))
   else Ok (JStr "Salary not specified"))
  = salary_display truthy (toString h) sign lo hi.
Proof.
  intros ->. unfold salary_display.
  rewrite truthy_js_or, !toString_or_empty.
  destruct (truthy lo || truthy hi); [|reflexivity].
  destruct (if truthy lo then toString h lo else Ok "") as [low|e]; [|reflexivity].
  cbn [rbind].
  destruct (if truthy hi then toString h hi else Ok "") as [high|e]; [|reflexivity].
  reflexivity.
Qed.

Lemma adzuna_job_Ok (h : Host) (item : value) (r : JobRecord) :
  adzuna_job h item = Ok r ->
  nullish item = false
  /\ salary_display truthy (toString h) "£" (prop_of item "salary_min")
                    (prop_of item "salary_max") = Ok (salary r)
  /\ company r = js_or (opt_prop (prop_of item "company") "display_name")
                       (JStr "Unknown Company")
  /\ location r = js_or (opt_prop (prop_of item "location") "display_name")
                        (JStr "Location not specified")
  /\ (exists d, new_Date h (prop_of item "created") = Ok d
                /\ posted r = JStr (toLocaleDateString h d))
  /\ source r = JStr "Adzuna"
  /\ copied Adzuna item r.
Proof.
  unfold adzuna_job, get_prop.
  destruct (nullish item); cbn [rbind]; [discriminate|].
  rewrite (salary_text_display h "£" " - £" _ _ eq_refl).
  destruct (salary_display _ _ _ _ _) as [sal|e]; cbn [rbind]; [|discriminate].
  destruct (new_Date h _) as [d|e]; cbn [rbind]; [|discriminate].
  intros H. inversion H; subst; clear H. cbn.
  repeat split; eauto.
Qed.

Lemma reed_job_Ok (h : Host) (item : value) (r : JobRecord) :
  reed_job h item = Ok r ->
  nullish item = false
  /\ salary_display truthy (toString h) "£" (prop_of item "minimumSalary")
                    (prop_of item "maximumSalary") = Ok (salary r)
  /\ (exists d, new_Date h (prop_of item "date") = Ok d
                /\ posted r = JStr (toLocaleDateString h d))
  /\ source r = JStr "Reed"
  /\ copied Reed item r.
Proof.
  unfold reed_job, get_prop.
  destruct (nullish item); cbn [rbind]; [discriminate|].
  rewrite (salary_text_display h "£" " - £" _ _ eq_refl).
  destruct (salary_display _ _ _ _ _) as [sal|e]; cbn [rbind]; [|discriminate].
  destruct (new_Date h _) as [d|e]; cbn [rbind]; [|discriminate].
  intros H. inversion H; subst; clear H. cbn.
  repeat split; eauto.
Qed.

(** The salary of the USAJobs mapping: where the condition holds, the
    plain reads of the first remuneration succeed and give what the
    optional reads gave. *)
Lemma usajobs_salary_display (h : Host) (pr : value) :
  (if truthy (js_or (opt_prop (opt_index pr 0) "MinimumRange")
                    (opt_prop (opt_index pr 0) "MaximumRange"))
   then
     try! first_min <- get_index pr 0;
     try! MinimumRange <- get_prop first_min "MinimumRange";
     try! lo <- toString h (js_or MinimumRange (JStr ""));
     try! first_max <- get_index pr 0;
     try! MaximumRange <- get_prop first_max "MaximumRange";
     try! hi <- toString h (js_or MaximumRange (JStr ""));
     Ok (JStr ("$" +:+ lo +:+ " - $" +:+ hi))
   else Ok (JStr "Salary not specified"))
  = salary_display truthy (toString h) "$"
      (opt_prop (opt_index pr 0) "MinimumRange")
      (opt_prop (opt_index pr 0) "MaximumRange").
Proof.
  rewrite <- (salary_text_display h "$" " - $" _ _ eq_refl).
  destruct (truthy (js_or (opt_prop (opt_index pr 0) "MinimumRange")
                          (opt_prop (opt_index pr 0) "MaximumRange"))) eqn:Hc;
    [|reflexivity].
  assert (Hpr : nullish pr = false /\ nullish (index_of pr 0) = false).
  { rewrite truthy_js_or in Hc. unfold opt_prop, opt_index in Hc.
    destruct (nullish pr); [discriminate|]. split; [reflexivity|].
    destruct (nullish (index_of pr 0)); [discriminate|reflexivity]. }
  destruct Hpr as [Hpr H0].
  unfold get_index, opt_prop, opt_index, get_prop.
  rewrite Hpr. cbn [rbind]. rewrite H0. cbn [rbind].
  reflexivity.
Qed.

Lemma usajobs_job_Ok (h : Host) (item : value) (r : JobRecord) :
  usajobs_job h item = Ok r ->
  nullish item = false
  /\ salary_display truthy (toString h) "$" (salary_minimum USAJobs item)
                    (salary_maximum USAJobs item) = Ok (salary r)
  /\ (exists d, new_Date h (prop_of (prop_of item "MatchedObjectDescriptor")
                                    "PositionStartDate") = Ok d
                /\ posted r = JStr (toLocaleDateString h d))
  /\ source r = JStr "USAJobs"
  /\ copied USAJobs item r.
Proof.
  unfold usajobs_job, salary_minimum, salary_maximum, copied.
  destruct (get_prop item "MatchedObjectDescriptor") as [job|e] eqn:Hjob;
    cbn [rbind]; [|discriminate].
  apply get_prop_Ok in Hjob. destruct Hjob as [Hitem ->].
  set (job := prop_of item "MatchedObjectDescriptor").
  destruct (nullish job) eqn:Hn;
    [unfold get_prop; rewrite Hn; cbn [rbind]; discriminate|].
  rewrite !(get_prop_defined job) by assumption. cbn [rbind].
  rewrite usajobs_salary_display.
  destruct (salary_display _ _ _ _ _) as [sal|e]; cbn [rbind]; [|discriminate].
  unfold get_prop.
  destruct (nullish (prop_of job "UserArea")); cbn [rbind]; [discriminate|].
  destruct (nullish (prop_of (prop_of job "UserArea") "Details"));
    cbn [rbind]; [discriminate|].
  destruct (new_Date h _) as [d|e]; cbn [rbind]; [|discriminate].
  intros H. inversion H; subst; clear H. cbn.
  repeat split; eauto.
Qed.

(** C6, as the code has it. In every record a provider mapping produces,
    the salary is the currency sign and the minimum, " - ", the currency
    sign and the maximum whenever the minimum or the maximum is truthy
    (there, and neither 0 nor empty), with a number that is not truthy left
    out and the separator always there; it is "Salary not specified" when
    neither is truthy. A minimum or maximum is written as JavaScript
    converts it to a string: a string as it is, an integer of magnitude up
    to 2^53 with all its digits, every other number as [Number::toString]
    of the host writes it. *)
Theorem salary_formatting (h : Host) (p : Provider) (item : value) (r : JobRecord) :
  mapped h p item = Ok r ->
  salary_display truthy (toString h) (currency p)
                 (salary_minimum p item) (salary_maximum p item)
  = Ok (salary r)
  /\ (forall s, toString h (JStr s) = Ok s)
  /\ (forall z, Z.abs z <= 2 ^ 53 -> toString h (JNum (whole z)) = Ok (pretty z))
  /\ (forall n, safe_integer n = None ->
                toString h (JNum n) = Ok (Number_toString h n)).
Proof.
  intros H. split.
  - destruct p; simpl in H.
    + now apply adzuna_job_Ok in H.
    + now apply reed_job_Ok in H.
    + now apply usajobs_job_Ok in H.
  - split; [reflexivity|]. split.
    + intros z Hz. unfold toString, to_string, number_text. cbn [convertible text].
      now rewrite safe_integer_whole.
    + intros n Hn. unfold toString, to_string, number_text. cbn [convertible text].
      now rewrite Hn.
Qed.

Lemma salary_formatting_witness :
  mapped quiet_host Adzuna paid_item
  = Ok {| id := JStr "5"; title := JStr "Analyst";
          company := JStr "Unknown Company";
          location := JStr "Location not specified";
          salary := JStr "£35000.5 - £42000";
          description := JStr "Analysis";
          job_url := JStr "https://a.example/5";
          posted := JStr "11/2/2026"; source := JStr "Adzuna" |}
  /\ salary_display truthy (toString quiet_host) (currency Adzuna)
                    (salary_minimum Adzuna paid_item) (salary_maximum Adzuna paid_item)
     = Ok (JStr "£35000.5 - £42000")
  /\ mapped quiet_host USAJobs usajobs_item
     = Ok {| id := JStr "771"; title := JStr "IT Specialist";
             company := JStr "Department of Energy";
             location := JStr "Washington, DC";
             salary := JStr "$50000.0 - $80000.0";
             description := JStr "Summary";
             job_url := JStr "https://www.usajobs.gov/job/771";
             posted := JStr "11/2/2026"; source := JStr "USAJobs" |}.
Proof.
  split; [reflexivity|]. split; [|reflexivity].
  destruct (salary_formatting quiet_host Adzuna paid_item _ eq_refl) as [H _].
  exact H.
Defined.

(** C6 as stated fails for a minimum of 0: the number is there, but the
    Adzuna mapping shows the placeholder where the description promises
    the currency sign, the number and the separator. *)
Lemma zero_minimum_shows_placeholder :
  exists r,
    mapped quiet_host Adzuna unpaid_item = Ok r
    /\ salary_minimum Adzuna unpaid_item = JNum (whole 0)
    /\ salary r = JStr "Salary not specified"
    /\ salary_display given (toString quiet_host) (currency Adzuna)
                      (salary_minimum Adzuna unpaid_item)
                      (salary_maximum Adzuna unpaid_item) = Ok (JStr "£0 - £")
    /\ salary_display given (toString quiet_host) (currency Adzuna)
                      (salary_minimum Adzuna unpaid_item)
                      (salary_maximum Adzuna unpaid_item) <> Ok (salary r).
Proof.
  eexists. split; [reflexivity|]. repeat split. discriminate.
Qed.

(** ** Which fields are always filled *)










(** ** Removing duplicates *)

Section KeepFirst.

Context {A : Type} (eqb : A -> A -> bool) (P : A -> bool).

(** [P] is a class of [eqb]: the records related to a record of [P] are
    those of [P]. *)
Hypothesis class : forall x, P x = true -> forall s, eqb s x = P s.



End KeepFirst.



Lemma findIndex_from_bounds {A} (p : nat -> A -> bool) (l : list A) (start k : nat) :
  findIndex_from p start l = Some k -> (start <= k < start + length l)%nat.
Proof.
  revert start. induction l as [|x r IH]; simpl; intros start H; [discriminate|].
  destruct (p start x).
  - inversion H. lia.
  - apply IH in H. lia.
Qed.

Lemma findIndex_from_app {A} (p : nat -> A -> bool) (l1 l2 : list A) (start : nat) :
  findIndex_from p start (l1 ++ l2)
  = match findIndex_from p start l1 with
    | Some k => Some k
    | None => findIndex_from p (start + length l1) l2
    end.
Proof.
  revert start. induction l1 as [|x r IH]; simpl; intros start.
  - now rewrite Nat.add_0_r.
  - destruct (p start x); [reflexivity|].
    rewrite IH. now rewrite Nat.add_succ_r.
Qed.

Lemma findIndex_from_before {A} (p : nat -> A -> bool) (q : A -> bool)
    (l : list A) (start : nat) :
  (forall k x, (start <= k < start + length l)%nat -> p k x = q x) ->
  match findIndex_from p start l with
  | Some _ => existsb q l = true
  | None => existsb q l = false
  end.
Proof.
  revert start. induction l as [|x r IH]; simpl; intros start Hp; [reflexivity|].
  rewrite (Hp start x) by lia.
  destruct (q x); simpl; [reflexivity|].
  apply IH. intros k y Hk. apply Hp. lia.
Qed.

Lemma number_eqb_refl (n : number) : number_eqb n n = true.
Proof. destruct n as [q|[|]]; simpl; auto using Qeq_bool_refl. Qed.


Lemma String_eqb_decide (x y : string) : String.eqb x y = bool_decide (x = y).
Proof.
  destruct (String.eqb_spec x y) as [->|Hne].
  - now rewrite bool_decide_eq_true_2.
  - now rewrite bool_decide_eq_false_2.
Qed.

Lemma strict_equals_refl (v : value) : strict_equals true v v = true.
Proof.
  destruct v as [| |b|n|s|items|fs]; simpl; auto.
  - now destruct b.
  - apply number_eqb_refl.
  - apply String.eqb_refl.
Qed.

(** On primitive values [===] is being the same value. *)
Lemma strict_equals_primitive (a b : value) :
  primitive b = true -> strict_equals false a b = identical a b.
Proof.
  destruct a as [| |x|x|x|x|x], b as [| |y|y|y|y|y]; simpl; try discriminate; auto.
  intros _. apply String_eqb_decide.
Qed.

(** Records that [===] holds for are the same value. *)
Lemma strict_equals_identical (a b : value) :
  strict_equals false a b = true -> identical a b = true.
Proof.
  destruct a as [| |x|x|x|x|x], b as [| |y|y|y|y|y]; simpl; try discriminate; auto.
  now rewrite String_eqb_decide.
Qed.





(** The filter of [uniqueJobs] keeps a record exactly when no record before
    it has its title and company. *)
Lemma uniqueJobs_from (pre l : list JobRecord) :
  filter_from
    (fun job index =>
       match findIndex (fun k j => same_pair (Nat.eqb k index) j job) (pre ++ l) with
       | Some i => Nat.eqb index i
       | None => false
       end)
    (length pre) l
  = keep_first key_eqb pre l.
Proof.
  revert pre. induction l as [|x r IH]; intros pre; simpl; [reflexivity|].
  assert (Hnext : pre ++ x :: r = (pre ++ [x]) ++ r) by now rewrite <- app_assoc.
  assert (Hlen : S (length pre) = length (pre ++ [x]))
    by (rewrite length_app; simpl; lia).
  unfold findIndex at 1. rewrite findIndex_from_app. simpl.
  pose proof (findIndex_from_before
                (fun k j => same_pair (Nat.eqb k (length pre)) j x)
                (fun j => key_eqb j x) pre 0) as Hpre.
  pose proof (findIndex_from_bounds
                (fun k j => same_pair (Nat.eqb k (length pre)) j x) pre 0) as Hb.
  destruct (findIndex_from _ 0 pre) as [k|].
  - rewrite Hpre.
    + specialize (Hb k eq_refl).
      replace (Nat.eqb (length pre) k) with false
        by (symmetry; apply Nat.eqb_neq; lia).
      rewrite Hnext, Hlen. apply IH.
    + intros k' y Hk'. unfold key_eqb.
      replace (Nat.eqb k' (length pre)) with false
        by (symmetry; apply Nat.eqb_neq; lia).
      reflexivity.
  - rewrite Hpre.
    + rewrite Nat.eqb_refl. unfold same_pair at 1.
      rewrite !strict_equals_refl. simpl. rewrite Nat.eqb_refl.
      f_equal. rewrite Hnext, Hlen. apply IH.
    + intros k' y Hk'. unfold key_eqb.
      replace (Nat.eqb k' (length pre)) with false
        by (symmetry; apply Nat.eqb_neq; lia).
      reflexivity.
Qed.

Lemma uniqueJobs_keep_first (allJobs : list JobRecord) :
  uniqueJobs allJobs = keep_first key_eqb [] allJobs.
Proof. exact (uniqueJobs_from [] allJobs). Qed.

(** ** The combined search *)

(** The promise of a loopback call never rejects: the [.catch] of the call
    replaces every failure by an empty list of jobs. *)
Lemma loopback_promise_total (h : Host) (req : Request) (route : string)
    (handler : Request -> M Response) (ps : list (string * value)) (n : nat)
    (w : World) :
  exists r w', loopback_promise h req route handler ps n w = (Ok r, w').
Proof.
  unfold loopback_promise.
  destruct (loopback_delivered h n _); [|eauto].
  destruct (handler _ w) as [[resp|e] w2]; [|eauto].
  destruct ((200 <=? status resp)%nat && (status resp <? 300)%nat); eauto.
Qed.

Lemma contribution_taken (h : Host) (req : Request) (route : string)
    (handler : Request -> M Response) (selected : bool) (n : nat) (w : World) :
  contribution h req route handler selected n w
  = if selected && loopback_delivered h n (loopback_call req route (forwarded_params req))
    then (taken (handler (forwarded_request req route (forwarded_params req)) w),
          snd (handler (forwarded_request req route (forwarded_params req)) w))
    else ([], w).
Proof.
  unfold contribution, loopback_promise, taken. destruct selected; [|reflexivity].
  destruct (loopback_delivered h n _); [|reflexivity].
  destruct (handler _ w) as [[resp|e] w2]; [|reflexivity].
  cbn [fst snd andb].
  destruct ((200 <=? status resp)%nat && (status resp <? 300)%nat); [|reflexivity].
  now destruct (body_jobs (body resp)).
Qed.

Ltac run_promises :=
  repeat match goal with
         | |- context [loopback_promise ?h ?req ?route ?handler ?ps ?n ?w] =>
             let r := fresh "r" in
             let w' := fresh "w" in
             let E := fresh "E" in
             destruct (loopback_promise_total h req route handler ps n w)
               as (r & w' & E);
             rewrite E
         end.

(** With a list of source tokens the handler answers 200 with the merged
    list of the selected providers, duplicates removed. *)
Lemma search_handler_tokens (h : Host) (keys : ApiKeys) (req : Request)
    (tokens : list string) (w : World) :
  split_method (default_to (query_get req "sources") (JStr "adzuna,reed,usajobs"))
  = Ok tokens ->
  search_handler h keys req w
  = let '(allJobs, w') :=
      merged h keys req (includes "adzuna" tokens) (includes "reed" tokens)
             (includes "usajobs" tokens) w in
    (Ok {| status := 200;
           body := CombinedOk (uniqueJobs allJobs) (length (uniqueJobs allJobs))
                              tokens |}, w').
Proof.
  intros Hsplit.
  unfold search_handler, try_catch, bind at 1, lift. rewrite Hsplit.
  unfold merged, contribution, issued, forwarded_params.
  destruct (includes "adzuna" tokens), (includes "reed" tokens),
    (includes "usajobs" tokens);
    unfold bind, ret, loopback_get;
    cbn -[loopback_promise uniqueJobs adzuna_handler reed_handler usajobs_handler];
    unfold bind, ret; run_promises;
    cbn -[loopback_promise uniqueJobs adzuna_handler reed_handler usajobs_handler];
    rewrite ?app_nil_r; reflexivity.
Qed.





Lemma search_handler_Ok_tokens (h : Host) (keys : ApiKeys) (req : Request)
    (w w' : World) (resp : Response) :
  search_handler h keys req w = (Ok resp, w') ->
  exists tokens,
    split_method (default_to (query_get req "sources") (JStr "adzuna,reed,usajobs"))
    = Ok tokens.
Proof.
  destruct (split_method _) as [tokens|e] eqn:Hs; [eauto|].
  unfold search_handler, try_catch, bind at 1, lift. rewrite Hs.
  discriminate.
Qed.

(** C3. The catch block of the combined search never sends its answer:
    whenever the try block throws, reading [keywords] in the catch block
    throws in turn, so the handler either answers 200 or ends with a
    reference error and no body. A request whose [sources] parameter is
    repeated reaches the handler as an array, for which [sources.split]
    throws: it ends that way. *)
Theorem search_catch_throws_reference_error (h : Host) (keys : ApiKeys) (w : World)
    (req : Request) (items : list value) (q : list (string * value)) :
  ((exists resp w', search_handler h keys req w = (Ok resp, w') /\ status resp = 200%nat)
   \/ search_handler h keys req w
      = (Throw (ReferenceError "keywords is not defined"), w))
  /\ search_handler h keys
       (get_request "/api/jobs/search" (("sources", JArr items) :: q)) w
     = (Throw (ReferenceError "keywords is not defined"), w).
Proof.
  split; [|reflexivity].
  destruct (split_method (default_to (query_get req "sources")
                                     (JStr "adzuna,reed,usajobs")))
    as [tokens|e] eqn:Hs.
  - left. rewrite (search_handler_tokens _ _ _ _ _ Hs).
    destruct (merged h keys req _ _ _ w) as [allJobs w3]. eauto.
  - right. unfold search_handler, try_catch, bind at 1, lift. rewrite Hs.
    reflexivity.
Qed.




(** ** The list of sources *)

Lemma split_not_nil (sep : ascii) (s : string) : split sep s <> [].
Proof.
  destruct s as [|c r]; simpl; [discriminate|].
  destruct (Ascii.eqb c sep); [discriminate|].
  destruct (split sep r); discriminate.
Qed.

Lemma join_cons (sep s : string) (l : list string) :
  l <> [] -> join sep (s :: l) = s +:+ sep +:+ join sep l.
Proof. destruct l; [congruence|reflexivity]. Qed.

(** Joining the tokens with the separator gives the string back. *)
Lemma join_split (s : string) : join "," (split "," s) = s.
Proof.
  induction s as [|c r IH]; simpl; [reflexivity|].
  destruct (Ascii.eqb c ",") eqn:Hc.
  - apply Ascii.eqb_eq in Hc. subst c.
    rewrite join_cons by apply split_not_nil. simpl. now rewrite IH.
  - pose proof (split_not_nil "," r) as Hne.
    destruct (split "," r) as [|t ts]; [congruence|].
    destruct ts as [|u us]; simpl in *; now rewrite <- IH.
Qed.

Lemma split_comma_free (s : string) : Forall comma_free (split "," s).
Proof.
  induction s as [|c r IH]; simpl.
  - constructor; [|constructor]. intros i. now destruct i.
  - destruct (Ascii.eqb c ",") eqn:Hc.
    + constructor; [|exact IH]. intros i. now destruct i.
    + pose proof (split_not_nil "," r) as Hne.
      destruct (split "," r) as [|t ts]; [congruence|].
      inversion IH as [|? ? Ht Hts]; subst.
      constructor; [|exact Hts].
      intros [|i]; simpl.
      * intros H. inversion H; subst. now rewrite Ascii.eqb_refl in Hc.
      * apply Ht.
Qed.

(** [includes] finds exactly the members of the list. *)
Lemma includes_elem_of (x : string) (l : list string) :
  includes x l = bool_decide (x ∈ l).
Proof.
  unfold includes. induction l as [|y r IH]; cbn [existsb].
  - symmetry. apply bool_decide_eq_false_2, not_elem_of_nil.
  - rewrite IH. destruct (String.eqb_spec x y) as [->|Hne]; cbn [orb].
    + symmetry. apply bool_decide_eq_true_2. rewrite elem_of_cons. now left.
    + apply bool_decide_ext. rewrite elem_of_cons. tauto.
Qed.

Lemma not_included (x : string) (l : list string) : includes x l = false -> x ∉ l.
Proof. rewrite includes_elem_of. apply bool_decide_eq_false_1. Qed.

Lemma includes_iff (x : string) (l l' : list string) :
  (x ∈ l' <-> x ∈ l) -> includes x l' = includes x l.
Proof. intros H. rewrite !includes_elem_of. now apply bool_decide_ext. Qed.

Lemma merged_with_sources (h : Host) (keys : ApiKeys) (req : Request) (s : string)
    (sa sr su : bool) (w : World) :
  merged h keys (with_sources req s) sa sr su w = merged h keys req sa sr su w.
Proof. reflexivity. Qed.

(** C10. For a [sources] string [s], every answer of the combined search
    has status 200 and success; its [sources] are the pieces of [s]
    between its commas, unchanged, and its jobs are the merged jobs of
    those among Adzuna, Reed and USAJobs whose name is one of the pieces,
    so that a piece that is no provider name adds nothing and two strings
    naming the same providers give the same jobs. The search does answer
    when the keywords can be converted to a string; and when no piece is a
    provider name it answers with no jobs and total 0, and nothing was
    called. *)
Theorem search_sources_echoed (h : Host) (keys : ApiKeys) (req : Request)
    (s : string) (w : World) :
  query_get req "sources" = JStr s ->
  join "," (split "," s) = s
  /\ Forall comma_free (split "," s)
  /\ (forall resp w',
         search_handler h keys req w = (Ok resp, w') ->
         let allJobs :=
           fst (merged h keys req (bool_decide ("adzuna" ∈ split "," s))
                       (bool_decide ("reed" ∈ split "," s))
                       (bool_decide ("usajobs" ∈ split "," s)) w) in
         resp = {| status := 200;
                   body := CombinedOk (uniqueJobs allJobs)
                                      (length (uniqueJobs allJobs)) (split "," s) |})
  /\ (valid_query req ->
      exists resp w', search_handler h keys req w = (Ok resp, w'))
  /\ ("adzuna" ∉ split "," s -> "reed" ∉ split "," s -> "usajobs" ∉ split "," s ->
      search_handler h keys req w
      = (Ok {| status := 200; body := CombinedOk [] 0 (split "," s) |}, w))
  /\ (forall s',
         ("adzuna" ∈ split "," s' <-> "adzuna" ∈ split "," s) ->
         ("reed" ∈ split "," s' <-> "reed" ∈ split "," s) ->
         ("usajobs" ∈ split "," s' <-> "usajobs" ∈ split "," s) ->
         answer_jobs (search_handler h keys (with_sources req s') w)
         = answer_jobs (search_handler h keys req w)).
Proof.
  intros Hs.
  assert (Hrun : forall r t, query_get r "sources" = JStr t ->
            split_method (default_to (query_get r "sources")
                                     (JStr "adzuna,reed,usajobs"))
            = Ok (split "," t)) by (intros r t ->; reflexivity).
  split; [apply join_split|].
  split; [apply split_comma_free|].
  split.
  { intros resp w'. rewrite <- !includes_elem_of.
    rewrite (search_handler_tokens _ _ _ _ _ (Hrun _ _ Hs)).
    destruct (merged h keys req _ _ _ w) as [allJobs w3].
    intros H. now inversion H. }
  split.
  { intros _. rewrite (search_handler_tokens _ _ _ _ _ (Hrun _ _ Hs)).
    destruct (merged h keys req _ _ _ w) as [allJobs w3]. eauto. }
  split.
  - intros Ha Hr Hu.
    rewrite (search_handler_tokens _ _ _ _ _ (Hrun _ _ Hs)), !includes_elem_of.
    rewrite !bool_decide_eq_false_2 by assumption. reflexivity.
  - intros s' Ha Hr Hu.
    rewrite (search_handler_tokens _ _ _ _ _ (Hrun _ _ Hs)).
    rewrite (search_handler_tokens h keys (with_sources req s') (split "," s') w)
      by (apply Hrun; reflexivity).
    rewrite (includes_iff _ _ _ Ha), (includes_iff _ _ _ Hr), (includes_iff _ _ _ Hu),
      merged_with_sources.
    destruct (merged h keys req _ _ _ w) as [allJobs w3]. reflexivity.
Qed.

Lemma search_sources_echoed_witness :
  fst (search_handler overlapping_host (API_KEYS ∅)
         (get_request "/api/jobs/search" [("sources", JStr "linkedin,,reedy,Reed,reed")])
         world0)
  = Ok {| status := 200;
          body := CombinedOk [job_r7; job_r8; job_r9] 3
                             ["linkedin"; ""; "reedy"; "Reed"; "reed"] |}
  /\ search_handler overlapping_host (API_KEYS ∅)
       (get_request "/api/jobs/search" [("sources", JStr "adzunaX,monster")]) world0
     = (Ok {| status := 200; body := CombinedOk [] 0 ["adzunaX"; "monster"] |}, world0).
Proof.
  split; [reflexivity|].
  apply (search_sources_echoed overlapping_host (API_KEYS ∅)
           (get_request "/api/jobs/search" [("sources", JStr "adzunaX,monster")])
           "adzunaX,monster" world0 eq_refl); apply not_included; reflexivity.
Defined.

(** ** The rate limiter *)

Lemma consume_other (store : gmap string Bucket) (key client : string) (now : Z) :
  key <> client -> snd (consume store key now) !! client = store !! client.
Proof.
  intros Hne. unfold consume.
  destruct (store !! key) as [b|]; [destruct (now <? expires b)|];
    simpl; now rewrite lookup_insert_ne.
Qed.

Lemma consume_running (store : gmap string Bucket) (client : string) (now : Z)
    (b : Bucket) :
  store !! client = Some b -> now < expires b ->
  consume store client now
  = ((S (consumed b) <=? points)%nat,
     <[client := {| consumed := S (consumed b); expires := expires b |}]> store).
Proof.
  intros Hb Hnow. unfold consume. rewrite Hb.
  apply Z.ltb_lt in Hnow. now rewrite Hnow.
Qed.

Lemma consume_fresh (store : gmap string Bucket) (client : string) (now : Z) :
  window_over store client now ->
  consume store client now
  = (true, <[client := {| consumed := 1; expires := now + duration * 1000 |}]> store).
Proof.
  unfold window_over, consume. destruct (store !! client) as [b|]; [|reflexivity].
  intros Hb. apply Z.ltb_ge in Hb. now rewrite Hb.
Qed.

Lemma map_seq_S {B} (f : nat -> B) (m : nat) :
  List.map f (seq 0 (S m)) = f 0%nat :: List.map (fun k => f (S k)) (seq 0 m).
Proof. simpl. f_equal. rewrite <- seq_shift. now rewrite List.map_map. Qed.

(** Inside a running window the [k]-th further request of the client is
    let through as long as no more than [points] were consumed. *)
Lemma gate_run_running (client : string) (limit : Z) (arrivals : list (string * Z)) :
  forall (store : gmap string Bucket) (b : Bucket),
    store !! client = Some b -> limit <= expires b ->
    (forall a, In a (arrivals_of client arrivals) -> snd a < limit) ->
    verdicts_for client (gate_run store arrivals)
    = List.map (fun k => (S (consumed b + k) <=? points)%nat)
               (seq 0 (length (arrivals_of client arrivals))).
Proof.
  induction arrivals as [|[c t] r IH]; intros store b Hb Hlim Hin; [reflexivity|].
  unfold verdicts_for, arrivals_of in *. simpl in *.
  destruct (consume store c t) as [ok store'] eqn:Hc. simpl.
  destruct (String.eqb c client) eqn:Hcl.
  - apply String.eqb_eq in Hcl. subst c.
    assert (Ht : t < expires b)
      by (specialize (Hin (client, t) (or_introl eq_refl)); simpl in Hin; lia).
    rewrite (consume_running store client t b Hb Ht) in Hc.
    inversion Hc; subst; clear Hc.
    cbn [length List.map snd]. rewrite map_seq_S. f_equal.
    + now rewrite Nat.add_0_r.
    + rewrite (IH _ {| consumed := S (consumed b); expires := expires b |}).
      * apply List.map_ext. intros k. simpl. now rewrite Nat.add_succ_r.
      * apply lookup_insert_eq.
      * exact Hlim.
      * intros a Ha. apply Hin. now right.
  - apply String.eqb_neq in Hcl.
    apply (IH store' b); auto.
    replace store' with (snd (consume store c t)) by now rewrite Hc.
    now rewrite consume_other.
Qed.

(** From a client without a running window: the first [points] requests
    of the window pass, the later ones are refused. *)
Lemma gate_run_window (client : string) (t0 : Z) (arrivals : list (string * Z)) :
  forall store : gmap string Bucket,
    window_over store client t0 ->
    (forall a, In a (arrivals_of client arrivals) ->
               t0 <= snd a < t0 + duration * 1000) ->
    verdicts_for client (gate_run store arrivals)
    = List.map (fun k => (k <? points)%nat)
               (seq 0 (length (arrivals_of client arrivals))).
Proof.
  induction arrivals as [|[c t] r IH]; intros store Hw Hin; [reflexivity|].
  simpl. destruct (consume store c t) as [ok store'] eqn:Hc.
  unfold verdicts_for, arrivals_of in *. simpl in *.
  destruct (String.eqb c client) eqn:Hcl.
  - apply String.eqb_eq in Hcl. subst c.
    assert (Ht : t0 <= t < t0 + duration * 1000)
      by (specialize (Hin (client, t) (or_introl eq_refl)); simpl in Hin; lia).
    rewrite consume_fresh in Hc.
    + inversion Hc; subst; clear Hc.
      cbn [length List.map snd]. rewrite map_seq_S. f_equal.
      pose proof (gate_run_running client (t0 + duration * 1000) r
                    (<[client := {| consumed := 1; expires := t + duration * 1000 |}]> store)
                    {| consumed := 1; expires := t + duration * 1000 |}) as Hrun.
      unfold verdicts_for, arrivals_of in Hrun. rewrite Hrun.
      * apply List.map_ext. intros k. reflexivity.
      * apply lookup_insert_eq.
      * simpl. lia.
      * intros a Ha. apply Hin. now right.
    + unfold window_over in *. destruct (store !! client); [lia|exact I].
  - apply String.eqb_neq in Hcl.
    apply (IH store'); auto.
    unfold window_over.
    replace store' with (snd (consume store c t)) by now rewrite Hc.
    now rewrite consume_other.
Qed.

Lemma gate_run_app (store : gmap string Bucket) (l1 l2 : list (string * Z)) :
  gate_run store (l1 ++ l2) = gate_run store l1 ++ gate_run (store_after store l1) l2.
Proof.
  revert store. induction l1 as [|[c t] r IH]; intros store; [reflexivity|].
  simpl. destruct (consume store c t) as [ok store']. simpl. now rewrite IH.
Qed.

Lemma verdicts_for_app (client : string) (l1 l2 : list (string * bool)) :
  verdicts_for client (l1 ++ l2) = verdicts_for client l1 ++ verdicts_for client l2.
Proof. unfold verdicts_for. now rewrite List.filter_app, List.map_app. Qed.

(** While the window of a client runs, its end does not move. *)
Lemma store_after_running (client : string) (arrivals : list (string * Z)) :
  forall (store : gmap string Bucket) (b : Bucket),
    store !! client = Some b ->
    (forall a, In a (arrivals_of client arrivals) -> snd a < expires b) ->
    exists b', store_after store arrivals !! client = Some b'
               /\ expires b' = expires b.
Proof.
  induction arrivals as [|[c t] r IH]; intros store b Hb Hin; [eauto|].
  unfold arrivals_of in *. simpl in *.
  destruct (String.eqb c client) eqn:Hcl.
  - apply String.eqb_eq in Hcl. subst c.
    assert (Ht : t < expires b)
      by (specialize (Hin (client, t) (or_introl eq_refl)); simpl in Hin; lia).
    rewrite (consume_running store client t b Hb Ht). simpl.
    destruct (IH (<[client := {| consumed := S (consumed b); expires := expires b |}]>
                    store)
                 {| consumed := S (consumed b); expires := expires b |})
      as (b' & Hb' & He).
    + apply lookup_insert_eq.
    + intros a Ha. apply Hin. now right.
    + eauto.
  - apply String.eqb_neq in Hcl.
    apply IH; [|exact Hin].
    now rewrite consume_other.
Qed.

(** C8. For every client address: of the requests that arrive within the
    60 seconds after a request that found no window running, that request
    and the next nine are let through to routing and all later ones are
    refused, whatever other clients do in between; the first request that
    arrives 60 seconds or more after the window was opened is let through
    again. A refused request is answered 429 with the body
    [{ error: 'Too many requests' }] and leaves the world as it was: no
    handler ran, nothing was called. *)
Theorem rate_limit_ten_per_window (env : gmap string string) (h : Host)
    (store : gmap string Bucket) (client : string) (t0 t1 : Z)
    (arrivals : list (string * Z)) :
  window_over store client t0 ->
  (forall a, In a (arrivals_of client arrivals) -> t0 <= snd a < t0 + 60000) ->
  t0 + 60000 <= t1 ->
  verdicts_for client
    (gate_run store ((client, t0) :: arrivals ++ [(client, t1)]))
  = List.map (fun k => (k <? 10)%nat)
             (seq 0 (S (length (arrivals_of client arrivals))))
    ++ [true]
  /\ (forall (st : gmap string Bucket) now req,
         app h env st client now req
         = (if fst (consume st client now)
            then routed h (API_KEYS env) req
            else ret too_many_requests,
            snd (consume st client now)))
  /\ (forall w, ret too_many_requests w = (Ok too_many_requests, w)).
Proof.
  intros Hw Hin Hlate.
  split; [|split; [|reflexivity]].
  - change ((client, t0) :: arrivals ++ [(client, t1)])
      with (((client, t0) :: arrivals) ++ [(client, t1)]).
    rewrite gate_run_app, verdicts_for_app.
    assert (Hfirst : arrivals_of client ((client, t0) :: arrivals)
                     = (client, t0) :: arrivals_of client arrivals).
    { unfold arrivals_of. simpl. now rewrite String.eqb_refl. }
    f_equal.
    + rewrite (gate_run_window client t0 _ store Hw).
      * now rewrite Hfirst.
      * rewrite Hfirst. intros a [<-|Ha]; [simpl; unfold duration; lia|].
        unfold duration. now apply Hin.
    + simpl store_after. rewrite (consume_fresh store client t0 Hw). simpl snd.
      destruct (store_after_running client arrivals
                  (<[client := {| consumed := 1; expires := t0 + duration * 1000 |}]>
                     store)
                  {| consumed := 1; expires := t0 + duration * 1000 |})
        as (b' & Hb' & He).
      * apply lookup_insert_eq.
      * intros a Ha. simpl. unfold duration. apply Hin in Ha. lia.
      * simpl. rewrite consume_fresh.
        -- unfold verdicts_for. simpl. now rewrite String.eqb_refl.
        -- unfold window_over. rewrite Hb', He. simpl. unfold duration. lia.
  - intros st now req. unfold app, rate_limit.
    now destruct (consume st client now) as [[|] st'].
Qed.

Lemma window_over_empty (client : string) (t : Z) : window_over ∅ client t.
Proof. unfold window_over. now rewrite lookup_empty. Qed.

Lemma rate_limit_ten_per_window_witness :
  window_over ∅ "10.0.0.1" 0
  /\ verdicts_for "10.0.0.1"
       (gate_run ∅ (("10.0.0.1", 0) :: burst ++ [("10.0.0.1", 60000)]))
     = [true; true; true; true; true; true; true; true; true; true; false; false; true].
Proof.
  split; [apply window_over_empty|].
  apply (rate_limit_ten_per_window ∅ quiet_host ∅ "10.0.0.1" 0 60000 burst
           (window_over_empty _ _)); [|lia].
  intros a Ha. simpl in Ha.
  repeat (destruct Ha as [<-|Ha]; [simpl; lia|]). contradiction.
Defined.

(* ===================================================================== *)
(** * Further properties *)
(* ===================================================================== *)

(** ** When a provider route answers with success *)

Lemma mapM_is_ok {A B} (f : A -> Result B) (ok : A -> bool) (l : list A) :
  (forall x, is_ok (f x) = ok x) -> is_ok (mapM f l) = forallb ok l.
Proof.
  intros Hf. induction l as [|x r IH]; simpl; [reflexivity|].
  rewrite <- Hf, <- IH.
  destruct (f x); simpl; [|reflexivity].
  now destruct (mapM f r).
Qed.

Lemma new_Date_is_ok (h : Host) (v : value) : is_ok (new_Date h v) = convertible v.
Proof.
  destruct v as [| |b|n|s|items|fs]; try reflexivity;
    unfold new_Date, toString, to_string;
    now destruct (convertible _).
Qed.

Lemma salary_display_is_ok (h : Host) (sign : string) (lo hi : value) :
  is_ok (salary_display truthy (toString h) sign lo hi) = salary_ok lo hi.
Proof.
  unfold salary_display, salary_ok, toString, to_string.
  destruct (truthy lo) eqn:Hlo, (truthy hi) eqn:Hhi; cbn [orb];
    rewrite ?(falsy_convertible lo Hlo), ?(falsy_convertible hi Hhi);
    try reflexivity;
    destruct (convertible lo), (convertible hi); reflexivity.
Qed.

Lemma adzuna_job_is_ok (h : Host) (item : value) :
  is_ok (adzuna_job h item) = adzuna_item_ok item.
Proof.
  unfold adzuna_job, adzuna_item_ok, get_prop.
  destruct (nullish item); cbn [rbind negb andb]; [reflexivity|].
  rewrite (salary_text_display h "£" " - £" _ _ eq_refl).
  rewrite <- (salary_display_is_ok h "£"), <- (new_Date_is_ok h).
  destruct (salary_display _ _ _ _ _) as [sal|e]; cbn [rbind is_ok andb];
    [|reflexivity].
  now destruct (new_Date h _).
Qed.

Lemma reed_job_is_ok (h : Host) (item : value) :
  is_ok (reed_job h item) = reed_item_ok item.
Proof.
  unfold reed_job, reed_item_ok, get_prop.
  destruct (nullish item); cbn [rbind negb andb]; [reflexivity|].
  rewrite (salary_text_display h "£" " - £" _ _ eq_refl).
  rewrite <- (salary_display_is_ok h "£"), <- (new_Date_is_ok h).
  destruct (salary_display _ _ _ _ _) as [sal|e]; cbn [rbind is_ok andb];
    [|reflexivity].
  now destruct (new_Date h _).
Qed.

Lemma usajobs_job_is_ok (h : Host) (item : value) :
  is_ok (usajobs_job h item) = usajobs_item_ok item.
Proof.
  unfold usajobs_job, usajobs_item_ok, salary_minimum, salary_maximum, get_prop at 1.
  destruct (nullish item); cbn [rbind negb andb]; [reflexivity|].
  set (job := prop_of item "MatchedObjectDescriptor").
  destruct (nullish job) eqn:Hn;
    [unfold get_prop; rewrite Hn; reflexivity|].
  rewrite !(get_prop_defined job) by assumption. cbn [rbind negb andb].
  rewrite usajobs_salary_display.
  rewrite <- (salary_display_is_ok h "$"), <- (new_Date_is_ok h).
  destruct (salary_display _ _ _ _ _) as [sal|e]; cbn [rbind is_ok andb];
    [|reflexivity].
  unfold get_prop.
  destruct (nullish (prop_of job "UserArea")); cbn [rbind negb andb]; [reflexivity|].
  destruct (nullish (prop_of (prop_of job "UserArea") "Details"));
    cbn [rbind negb andb]; [reflexivity|].
  now destruct (new_Date h _).
Qed.

Lemma mapM_forallb_Ok {A B} (f : A -> Result B) (ok : A -> bool) (l : list A)
    (l' : list B) :
  (forall x, is_ok (f x) = ok x) -> mapM f l = Ok l' -> forallb ok l = true.
Proof. intros Hf H. rewrite <- (mapM_is_ok f ok l Hf), H. reflexivity. Qed.

Lemma mapM_forallb_Throw {A B} (f : A -> Result B) (ok : A -> bool) (l : list A)
    (e : JsError) :
  (forall x, is_ok (f x) = ok x) -> mapM f l = Throw e -> forallb ok l = false.
Proof. intros Hf H. rewrite <- (mapM_is_ok f ok l Hf), H. reflexivity. Qed.

(** The catch block of a provider route answers 500 when the keywords can
    be converted to a string, and ends with an exception otherwise. *)
Lemma fallback_status (h : Host) (keywords place label : value) (message : string)
    (w : World) :
  answer_status
    (bind (getFallbackJobs h keywords place label)
          (fun jobs => ret {| status := 500; body := Failed message jobs |}) w)
  = if convertible keywords then Some 500%nat else None.
Proof.
  unfold bind. destruct (convertible keywords) eqn:Hc.
  - now rewrite getFallbackJobs_Ok.
  - now rewrite getFallbackJobs_Throw.
Qed.

Ltac caught := cbn [negb andb mappable]; apply fallback_status.

(** X1. A provider route answers 200 exactly when its request could be put
    together and the provider answered it with a body whose result list is
    an array every item of which can be mapped: an item that is there and
    whose salary range and date can be converted to strings, and for
    USAJobs whose descriptor has [UserArea.Details]. In every other case, a
    single unusable item included, all results are dropped: the route
    answers 500 when the keywords can be converted to a string, and does
    not answer otherwise. *)
Theorem provider_route_status (h : Host) (keys : ApiKeys) (req : Request) (w : World) :
  answer_status (adzuna_handler h keys req w)
  = (if usable_answer h w (adzuna_request h keys req)
          (fun data => mappable adzuna_item_ok (prop_of data "results"))
     then Some 200%nat
     else if convertible (query_get req "keywords") then Some 500%nat else None)
  /\ answer_status (reed_handler h keys req w)
     = (if usable_answer h w (reed_request h keys req)
             (fun data => mappable reed_item_ok (prop_of data "results"))
        then Some 200%nat
        else if convertible (query_get req "keywords") then Some 500%nat else None)
  /\ answer_status (usajobs_handler h keys req w)
     = (if usable_answer h w (usajobs_request h keys req)
             (fun data =>
                negb (nullish (prop_of data "SearchResult"))
                && mappable usajobs_item_ok
                     (prop_of (prop_of data "SearchResult") "SearchResultItems"))
        then Some 200%nat
        else if convertible (query_get req "keywords") then Some 500%nat else None).
Proof.
  split; [|split].
  - unfold usable_answer, adzuna_handler, try_catch, bind at 1, lift.
    destruct (adzuna_request h keys req) as [o|e]; [|caught].
    unfold bind at 1, axios_get.
    destruct (upstream h (length (calls w)) o) as [data|]; [|caught].
    unfold bind at 1, lift, get_prop.
    destruct (nullish data); [caught|].
    unfold bind at 1, lift.
    destruct (prop_of data "results") as [| |b|n|s|items|fs]; try caught.
    cbn [array_map negb andb mappable].
    destruct (mapM (adzuna_job h) items) as [jobs|e] eqn:Hm.
    + now rewrite (mapM_forallb_Ok _ _ _ _ (adzuna_job_is_ok h) Hm).
    + rewrite (mapM_forallb_Throw _ _ _ _ (adzuna_job_is_ok h) Hm).
      apply fallback_status.
  - unfold usable_answer, reed_handler, try_catch, bind at 1, lift.
    destruct (reed_request h keys req) as [o|e]; [|caught].
    unfold bind at 1, axios_get.
    destruct (upstream h (length (calls w)) o) as [data|]; [|caught].
    unfold bind at 1, lift, get_prop.
    destruct (nullish data); [caught|].
    unfold bind at 1, lift.
    destruct (prop_of data "results") as [| |b|n|s|items|fs]; try caught.
    cbn [array_map negb andb mappable].
    destruct (mapM (reed_job h) items) as [jobs|e] eqn:Hm.
    + now rewrite (mapM_forallb_Ok _ _ _ _ (reed_job_is_ok h) Hm).
    + rewrite (mapM_forallb_Throw _ _ _ _ (reed_job_is_ok h) Hm).
      apply fallback_status.
  - unfold usable_answer, usajobs_handler, try_catch, bind at 1, lift.
    destruct (usajobs_request h keys req) as [o|e]; [|caught].
    unfold bind at 1, axios_get.
    destruct (upstream h (length (calls w)) o) as [data|]; [|caught].
    unfold bind at 1, lift, get_prop.
    destruct (nullish data); [caught|].
    unfold bind at 1, lift.
    destruct (nullish (prop_of data "SearchResult")) eqn:Hsr; [caught|].
    unfold bind at 1, lift.
    destruct (prop_of (prop_of data "SearchResult") "SearchResultItems")
      as [| |b|n|s|items|fs]; try caught.
    cbn [array_map negb andb mappable].
    destruct (mapM (usajobs_job h) items) as [jobs|e] eqn:Hm.
    + rewrite (mapM_forallb_Ok _ _ _ _ (usajobs_job_is_ok h) Hm).
      unfold bind, ret. now rewrite Hsr.
    + rewrite (mapM_forallb_Throw _ _ _ _ (usajobs_job_is_ok h) Hm).
      apply fallback_status.
Qed.

(** ** What a route answers when its provider cannot be reached *)

Lemma fallback_fields_generic (h : Host) (keywords place label : value) (w : World) :
  truthy keywords = false -> truthy place = false -> truthy label = true ->
  exists jobs w',
    getFallbackJobs h keywords place label w = (Ok jobs, w')
    /\ List.map title jobs = generic_titles
    /\ List.map location jobs = generic_locations
    /\ List.map source jobs = [label; label; label].
Proof.
  intros Hk Hp Hl.
  rewrite getFallbackJobs_Ok by now apply falsy_convertible.
  do 2 eexists. split; [reflexivity|].
  unfold js_or. rewrite Hk, Hp, Hl. repeat split.
Qed.

(** The answer of a provider route on a host whose providers cannot be
    reached is that of its catch block. *)
Lemma provider_outcome_unreachable (h : Host) (w : World) (request : Result Outbound)
    (items_of : value -> Result value) (job_of : value -> Result JobRecord)
    (keywords place : value) (label message : string)
    (result : Result Response * World) :
  unreachable h ->
  provider_outcome h w request items_of job_of keywords place label message result ->
  result
  = bind (getFallbackJobs h keywords place (JStr label))
         (fun jobs => ret {| status := 500; body := Failed message jobs |})
         (after_call w request).
Proof.
  intros Hun [(o & data & items & jobs & total & Hreq & Hup & _)| ->]; [|reflexivity].
  rewrite Hun in Hup. discriminate.
Qed.

(** X2. When the provider cannot be reached and the request has no (or an
    empty) [keywords] and [location], each provider route answers 500 with
    its fixed error message and three records titled "Software Developer",
    "Senior Software Engineer" and "Software Specialist", located in
    "Remote", "New York, NY" and "San Francisco, CA", and labelled with the
    provider's name: the defaults of the query are not used for them. *)
Theorem unreachable_provider_generic_jobs (h : Host) (keys : ApiKeys)
    (req : Request) (w : World) :
  unreachable h ->
  truthy (query_get req "keywords") = false ->
  truthy (query_get req "location") = false ->
  (exists jobs,
      fst (adzuna_handler h keys req w)
      = Ok {| status := 500; body := Failed "Failed to fetch jobs from Adzuna" jobs |}
      /\ List.map title jobs = generic_titles
      /\ List.map location jobs = generic_locations
      /\ List.map source jobs = [JStr "Adzuna"; JStr "Adzuna"; JStr "Adzuna"])
  /\ (exists jobs,
      fst (reed_handler h keys req w)
      = Ok {| status := 500; body := Failed "Failed to fetch jobs from Reed" jobs |}
      /\ List.map title jobs = generic_titles
      /\ List.map location jobs = generic_locations
      /\ List.map source jobs = [JStr "Reed"; JStr "Reed"; JStr "Reed"])
  /\ (exists jobs,
      fst (usajobs_handler h keys req w)
      = Ok {| status := 500; body := Failed "Failed to fetch jobs from USAJobs" jobs |}
      /\ List.map title jobs = generic_titles
      /\ List.map location jobs = generic_locations
      /\ List.map source jobs = [JStr "USAJobs"; JStr "USAJobs"; JStr "USAJobs"]).
Proof.
  intros Hun Hk Hp.
  split; [|split].
  - rewrite (provider_outcome_unreachable _ _ _ _ _ _ _ _ _ _ Hun
               (adzuna_handler_outcome h keys req w)).
    destruct (fallback_fields_generic h (query_get req "keywords")
                (query_get req "location") (JStr "Adzuna")
                (after_call w (adzuna_request h keys req))
                Hk Hp eq_refl) as (jobs & w' & Hrun & Ht & Hl & Hs).
    exists jobs. unfold bind, ret. rewrite Hrun. auto.
  - rewrite (provider_outcome_unreachable _ _ _ _ _ _ _ _ _ _ Hun
               (reed_handler_outcome h keys req w)).
    destruct (fallback_fields_generic h (query_get req "keywords")
                (query_get req "location") (JStr "Reed")
                (after_call w (reed_request h keys req))
                Hk Hp eq_refl) as (jobs & w' & Hrun & Ht & Hl & Hs).
    exists jobs. unfold bind, ret. rewrite Hrun. auto.
  - rewrite (provider_outcome_unreachable _ _ _ _ _ _ _ _ _ _ Hun
               (usajobs_handler_outcome h keys req w)).
    destruct (fallback_fields_generic h (query_get req "keywords")
                (query_get req "location") (JStr "USAJobs")
                (after_call w (usajobs_request h keys req))
                Hk Hp eq_refl) as (jobs & w' & Hrun & Ht & Hl & Hs).
    exists jobs. unfold bind, ret. rewrite Hrun. auto.
Qed.

Lemma quiet_host_unreachable : unreachable quiet_host.
Proof. intros n o. reflexivity. Qed.

Lemma unreachable_provider_generic_jobs_witness :
  unreachable quiet_host
  /\ exists jobs,
      fst (reed_handler quiet_host (API_KEYS ∅)
             (get_request "/api/jobs/reed" [("keywords", JStr "")]) world0)
      = Ok {| status := 500; body := Failed "Failed to fetch jobs from Reed" jobs |}
      /\ List.map title jobs = generic_titles
      /\ List.map location jobs = generic_locations
      /\ List.map source jobs = [JStr "Reed"; JStr "Reed"; JStr "Reed"].
Proof.
  split; [exact quiet_host_unreachable|].
  destruct (unreachable_provider_generic_jobs quiet_host (API_KEYS ∅)
              (get_request "/api/jobs/reed" [("keywords", JStr "")]) world0
              quiet_host_unreachable eq_refl eq_refl) as (_ & Hreed & _).
  exact Hreed.
Defined.

(** ** The ids and links of the fallback records *)








(** ** The combined search and providers that fail *)






(** X6. Every answer of the combined search has status 200 and success,
    its total is the number of its jobs, and its list of sources is not
    empty. *)
Theorem combined_search_total (h : Host) (keys : ApiKeys) (req : Request)
    (w w' : World) (resp : Response) :
  search_handler h keys req w = (Ok resp, w') ->
  exists jobs tokens,
    resp = {| status := 200; body := CombinedOk jobs (length jobs) tokens |}
    /\ tokens <> [].
Proof.
  intros Hrun.
  destruct (search_handler_Ok_tokens _ _ _ _ _ _ Hrun) as [tokens Htok].
  rewrite (search_handler_tokens _ _ _ _ _ Htok) in Hrun.
  destruct (merged h keys req _ _ _ w) as [allJobs w3].
  inversion Hrun; subst; clear Hrun.
  do 2 eexists. split; [reflexivity|].
  unfold split_method in Htok.
  destruct (default_to _ _); try discriminate.
  inversion Htok. apply split_not_nil.
Qed.

Lemma combined_search_total_witness :
  exists jobs tokens,
    {| status := 200;
       body := CombinedOk [job_a1; job_r8; job_r9] 3 ["reed"; "adzuna"] |}
    = {| status := 200; body := CombinedOk jobs (length jobs) tokens |}
    /\ tokens <> [].
Proof.
  apply (combined_search_total overlapping_host (API_KEYS ∅) reed_first_search
           world0
           (snd (search_handler overlapping_host (API_KEYS ∅) reed_first_search
                   world0))).
  reflexivity.
Defined.

(** ** The calls of a combined search *)

Lemma forwarded_query (req : Request) (route : string) :
  query_get (forwarded_request req route (forwarded_params req)) "keywords"
  = forwarded (query_get req "keywords") JUndefined
  /\ query_get (forwarded_request req route (forwarded_params req)) "location"
     = forwarded (query_get req "location") JUndefined
  /\ query_get (forwarded_request req route (forwarded_params req)) "page" = JUndefined
  /\ query_get (forwarded_request req route (forwarded_params req)) "resultsPerPage"
     = JUndefined.
Proof.
  unfold forwarded_request, forwarded_params, sent_params, forwarded, query_get. simpl.
  destruct (nullish (lookup_field "keywords" (query req)));
    destruct (nullish (lookup_field "location" (query req))); simpl;
    repeat split.
Qed.

Lemma default_to_forwarded (v d : value) :
  default_to (forwarded v JUndefined) d = forwarded v d.
Proof. now destruct v. Qed.

Lemma contribution_calls (h : Host) (req : Request) (route : string)
    (handler : Request -> M Response) (n : nat) (w : World) (o : Outbound) :
  loopback_reliable h ->
  (forall w1,
      calls (snd (handler (forwarded_request req route (forwarded_params req)) w1))
      = calls w1 ++ [o]) ->
  calls (snd (contribution h req route handler true n w)) = calls w ++ [o].
Proof.
  intros Hdel Hcalls. rewrite contribution_taken, Hdel. apply Hcalls.
Qed.

Lemma handler_calls (h : Host) (w : World) (request : Result Outbound) (o : Outbound)
    (items_of : value -> Result value) (job_of : value -> Result JobRecord)
    (keywords place : value) (label message : string)
    (result : Result Response * World) :
  request = Ok o ->
  provider_outcome h w request items_of job_of keywords place label message result ->
  calls (snd result) = calls w ++ [o].
Proof.
  intros Hreq Hout. rewrite (provider_outcome_calls _ _ _ _ _ _ _ _ _ _ Hout), Hreq.
  reflexivity.
Qed.

Lemma adzuna_request_forwarded (h : Host) (keys : ApiKeys) (req : Request) :
  adzuna_request h keys
    (forwarded_request req "/api/jobs/adzuna" (forwarded_params req))
  = Ok {| url := "https://api.adzuna.com/v1/api/jobs/gb/search/1";
          params := [ ("app_id", adzuna_appId keys);
                      ("app_key", adzuna_appKey keys);
                      ("what", forwarded (query_get req "keywords")
                                         (JStr "software engineer"));
                      ("where", forwarded (query_get req "location") (JStr "london"));
                      ("results_per_page", JNum (whole 20));
                      ("content_type", JStr "application/json") ];
          headers := [] |}.
Proof.
  destruct (forwarded_query req "/api/jobs/adzuna") as (Ak & Al & Ap & Ar).
  unfold adzuna_request, adzuna_params.
  rewrite Ak, Al, Ap, Ar, !default_to_forwarded. reflexivity.
Qed.

(** X7. A combined search without a [sources] parameter, on a host whose
    loopback calls get through, makes six calls: first, in this order, the
    calls to its own Adzuna, Reed and USAJobs routes, all three before any
    of them is answered, and then, as the routes get to make them, one
    call to each provider. Each provider is asked for the caller's keywords
    and location or, where the caller gave none, for that route's own
    defaults; Adzuna is always asked for page 1 with 20 results, whatever
    [page] and [resultsPerPage] the caller sent. *)
Theorem combined_search_calls (h : Host) (env : gmap string string) (req : Request)
    (w : World) :
  loopback_reliable h ->
  query_get req "sources" = JUndefined ->
  exists o_adzuna o_reed o_usajobs rest,
    adzuna_request h (API_KEYS env)
      (forwarded_request req "/api/jobs/adzuna" (forwarded_params req)) = Ok o_adzuna
    /\ reed_request h (API_KEYS env)
         (forwarded_request req "/api/jobs/reed" (forwarded_params req)) = Ok o_reed
    /\ usajobs_request h (API_KEYS env)
         (forwarded_request req "/api/jobs/usajobs" (forwarded_params req))
       = Ok o_usajobs
    /\ calls (snd (search_handler h (API_KEYS env) req w))
       = calls w
         ++ [ loopback_call req "/api/jobs/adzuna" (forwarded_params req);
              loopback_call req "/api/jobs/reed" (forwarded_params req);
              loopback_call req "/api/jobs/usajobs" (forwarded_params req) ]
         ++ rest
    /\ rest ≡ₚ [o_adzuna; o_reed; o_usajobs]
    /\ o_adzuna
       = {| url := "https://api.adzuna.com/v1/api/jobs/gb/search/1";
            params := [ ("app_id", adzuna_appId (API_KEYS env));
                        ("app_key", adzuna_appKey (API_KEYS env));
                        ("what", forwarded (query_get req "keywords")
                                           (JStr "software engineer"));
                        ("where", forwarded (query_get req "location") (JStr "london"));
                        ("results_per_page", JNum (whole 20));
                        ("content_type", JStr "application/json") ];
            headers := [] |}
    /\ params o_reed
       = [ ("keywords", forwarded (query_get req "keywords") (JStr "software engineer"));
           ("location", forwarded (query_get req "location") (JStr "london")) ]
    /\ params o_usajobs
       = [ ("Keyword", forwarded (query_get req "keywords") (JStr "software"));
           ("LocationName", forwarded (query_get req "location")
                                      (JStr "washington dc")) ].
Proof.
  intros Hdel Hs.
  pose proof (adzuna_request_forwarded h (API_KEYS env) req) as Ha.
  pose proof (reed_request_Ok h env
                (forwarded_request req "/api/jobs/reed" (forwarded_params req))) as Hr.
  pose proof (usajobs_request_Ok h env
                (forwarded_request req "/api/jobs/usajobs" (forwarded_params req)))
    as Hu.
  match type of Ha with _ = Ok ?v => set (oa := v) in * end.
  match type of Hr with _ = Ok ?v => set (o_r := v) in * end.
  match type of Hu with _ = Ok ?v => set (ou := v) in * end.
  exists oa, o_r, ou, [oa; o_r; ou].
  split; [exact Ha|]. split; [exact Hr|]. split; [exact Hu|].
  split; [|split; [reflexivity|]].
  - rewrite (search_handler_tokens h (API_KEYS env) req ["adzuna"; "reed"; "usajobs"] w)
      by (now rewrite Hs).
    change (includes "adzuna" ["adzuna"; "reed"; "usajobs"]) with true.
    change (includes "reed" ["adzuna"; "reed"; "usajobs"]) with true.
    change (includes "usajobs" ["adzuna"; "reed"; "usajobs"]) with true.
    unfold merged, issued.
    match goal with
    | |- context [contribution h req "/api/jobs/adzuna" ?hd true ?n ?w3] =>
        pose proof (contribution_calls h req "/api/jobs/adzuna" hd n w3 oa Hdel
                      (fun w1 => handler_calls _ _ _ _ _ _ _ _ _ _ _ Ha
                                   (adzuna_handler_outcome h (API_KEYS env) _ w1)))
          as Ca;
        destruct (contribution h req "/api/jobs/adzuna" hd true n w3) as [a w4]
    end.
    match goal with
    | |- context [contribution h req "/api/jobs/reed" ?hd true ?n ?w4] =>
        pose proof (contribution_calls h req "/api/jobs/reed" hd n w4 o_r Hdel
                      (fun w1 => handler_calls _ _ _ _ _ _ _ _ _ _ _ Hr
                                   (reed_handler_outcome h (API_KEYS env) _ w1)))
          as Cr;
        destruct (contribution h req "/api/jobs/reed" hd true n w4) as [b w5]
    end.
    match goal with
    | |- context [contribution h req "/api/jobs/usajobs" ?hd true ?n ?w5] =>
        pose proof (contribution_calls h req "/api/jobs/usajobs" hd n w5 ou Hdel
                      (fun w1 => handler_calls _ _ _ _ _ _ _ _ _ _ _ Hu
                                   (usajobs_handler_outcome h (API_KEYS env) _ w1)))
          as Cu;
        destruct (contribution h req "/api/jobs/usajobs" hd true n w5) as [c w6]
    end.
    cbn [fst snd calls] in *. rewrite Cu, Cr, Ca, <- !app_assoc. reflexivity.
  - split; [reflexivity|].
    destruct (forwarded_query req "/api/jobs/reed") as (Rk & Rl & _).
    destruct (forwarded_query req "/api/jobs/usajobs") as (Uk & Ul & _).
    subst o_r ou. cbn [params].
    rewrite Rk, Rl, Uk, Ul, !default_to_forwarded.
    split; reflexivity.
Qed.

Lemma host_of_loopback_reliable (clock : nat -> Z) (answers : Outbound -> option value) :
  loopback_reliable (host_of clock answers).
Proof. intros n o. reflexivity. Qed.

Lemma combined_search_calls_witness :
  exists rest,
    List.map url
      (calls (snd (search_handler overlapping_host (API_KEYS ∅)
                     (get_request "/api/jobs/search"
                        [("keywords", JStr "nurse"); ("page", JStr "7")]) world0)))
    = [ "http://localhost:3001/api/jobs/adzuna";
        "http://localhost:3001/api/jobs/reed";
        "http://localhost:3001/api/jobs/usajobs" ] ++ List.map url rest
    /\ List.map url rest ≡ₚ [ "https://api.adzuna.com/v1/api/jobs/gb/search/1";
                              "https://www.reed.co.uk/api/1.0/search";
                              "https://data.usajobs.gov/api/search" ].
Proof.
  destruct (combined_search_calls overlapping_host ∅
              (get_request "/api/jobs/search"
                 [("keywords", JStr "nurse"); ("page", JStr "7")]) world0
              (host_of_loopback_reliable _ _) eq_refl)
    as (oa & o_r & ou & rest & Ha & Hr & Hu & Hcalls & Hperm & _).
  exists rest. rewrite Hcalls. split; [reflexivity|].
  rewrite Hperm.
  inversion Ha; subst oa. inversion Hr; subst o_r. inversion Hu; subst ou.
  reflexivity.
Defined.

(** ** Removing duplicates twice, and lists without duplicates *)

Section KeepFirstAgain.

Context {A : Type} (eqb : A -> A -> bool).

Lemma keep_first_covered (l seen seen' : list A) :
  (forall y, existsb (fun s => eqb s y) seen' = true ->
             existsb (fun s => eqb s y) seen = true) ->
  keep_first eqb seen' (keep_first eqb seen l) = keep_first eqb seen l.
Proof.
  revert seen seen'. induction l as [|x r IH]; intros seen seen' Hcov; [reflexivity|].
  assert (Hnext : forall y, existsb (fun s => eqb s y) (seen' ++ [x]) = true ->
                            existsb (fun s => eqb s y) (seen ++ [x]) = true).
  { intros y. rewrite !existsb_app. intros H.
    apply orb_true_iff in H. apply orb_true_iff.
    destruct H as [H|H]; [left; now apply Hcov | now right]. }
  cbn [keep_first].
  destruct (existsb (fun s => eqb s x) seen) eqn:Hx.
  - apply IH. intros y Hy. rewrite existsb_app. apply orb_true_iff.
    left. now apply Hcov.
  - cbn [keep_first].
    destruct (existsb (fun s => eqb s x) seen') eqn:Hx'.
    + apply Hcov in Hx'. congruence.
    + f_equal. now apply IH.
Qed.

Lemma keep_first_length (l seen : list A) :
  (length (keep_first eqb seen l) <= length l)%nat.
Proof.
  revert seen. induction l as [|x r IH]; intros seen; simpl; [lia|].
  specialize (IH (seen ++ [x])).
  destruct (existsb (fun s => eqb s x) seen); simpl; lia.
Qed.

Lemma keep_first_fixed (l seen : list A) :
  keep_first eqb seen l = l <-> repeats eqb seen l = false.
Proof.
  revert seen. induction l as [|x r IH]; intros seen; simpl; [tauto|].
  destruct (existsb (fun s => eqb s x) seen) eqn:Hx; simpl.
  - split; [|discriminate].
    intros H. pose proof (keep_first_length r (seen ++ [x])) as Hlen.
    rewrite H in Hlen. simpl in Hlen. lia.
  - rewrite <- IH. split; [intros H; now injection H | now intros ->].
Qed.

End KeepFirstAgain.

(** X8. Removing duplicates is idempotent, and it never makes a list
    longer: filtering the filtered jobs once more changes nothing. *)
Theorem uniqueJobs_idempotent (allJobs : list JobRecord) :
  uniqueJobs (uniqueJobs allJobs) = uniqueJobs allJobs
  /\ (length (uniqueJobs allJobs) <= length allJobs)%nat.
Proof.
  rewrite !uniqueJobs_keep_first. split.
  - apply keep_first_covered. auto.
  - apply keep_first_length.
Qed.

(** For a record with a primitive title and company, the filter's
    comparison is having the same title and the same company. *)
Lemma key_eqb_plain (s x : JobRecord) :
  plain_key x = true -> key_eqb s x = identical_pair s x.
Proof.
  unfold plain_key, key_eqb, same_pair, identical_pair, has_pair. intros H.
  apply andb_true_iff in H. destruct H as [Ht Hc].
  now rewrite (strict_equals_primitive _ _ Ht), (strict_equals_primitive _ _ Hc).
Qed.

Lemma repeats_plain (seen l : list JobRecord) :
  forallb plain_key l = true ->
  repeats key_eqb seen l = repeats identical_pair seen l.
Proof.
  revert seen. induction l as [|x r IH]; intros seen H; [reflexivity|].
  cbn [forallb] in H. apply andb_true_iff in H. destruct H as [Hx Hr].
  cbn [repeats]. rewrite (IH _ Hr). f_equal.
  induction seen as [|s t IHs]; [reflexivity|].
  cbn [existsb]. now rewrite IHs, (key_eqb_plain s x Hx).
Qed.

(** X9. A list of jobs whose titles and companies are primitive values is
    left as it is by the filter exactly when no record of the list has the
    same title and the same company as a record before it; the first
    record of a list is always kept, in first place. *)
Theorem uniqueJobs_fixed (allJobs : list JobRecord) :
  forallb plain_key allJobs = true ->
  (uniqueJobs allJobs = allJobs <-> repeats identical_pair [] allJobs = false)
  /\ hd_error (uniqueJobs allJobs) = hd_error allJobs.
Proof.
  intros Hplain. rewrite uniqueJobs_keep_first, <- (repeats_plain [] _ Hplain). split.
  - apply keep_first_fixed.
  - now destruct allJobs.
Qed.

Lemma uniqueJobs_fixed_witness :
  forallb plain_key [job_a1; job_r9; job_r8] = true
  /\ repeats identical_pair [] [job_a1; job_r9; job_r8] = false
  /\ uniqueJobs [job_a1; job_r9; job_r8] = [job_a1; job_r9; job_r8].
Proof.
  split; [reflexivity|]. split; [reflexivity|].
  apply (uniqueJobs_fixed [job_a1; job_r9; job_r8] eq_refl). reflexivity.
Defined.

(** ** Splitting and joining *)

Lemma comma_free_cons (c : ascii) (t : string) :
  comma_free (String c t) -> Ascii.eqb c "," = false /\ comma_free t.
Proof.
  intros H. split.
  - destruct (Ascii.eqb c ",") eqn:Hc; [|reflexivity].
    apply Ascii.eqb_eq in Hc. subst c. now specialize (H 0%nat).
  - intros i. exact (H (S i)).
Qed.

Lemma split_token_then (t rest : string) :
  comma_free t -> split "," (t +:+ "," +:+ rest) = t :: split "," rest.
Proof.
  induction t as [|c t IH]; intros Hfree; [reflexivity|].
  apply comma_free_cons in Hfree. destruct Hfree as [Hc Hfree].
  change (String c t +:+ "," +:+ rest) with (String c (t +:+ "," +:+ rest)).
  change (split "," (String c (t +:+ "," +:+ rest)))
    with (if Ascii.eqb c ","
          then "" :: split "," (t +:+ "," +:+ rest)
          else match split "," (t +:+ "," +:+ rest) with
               | u :: us => String c u :: us
               | [] => [String c EmptyString]
               end).
  rewrite Hc, (IH Hfree). reflexivity.
Qed.

Lemma split_token (t : string) : comma_free t -> split "," t = [t].
Proof.
  induction t as [|c t IH]; intros Hfree; [reflexivity|].
  apply comma_free_cons in Hfree. destruct Hfree as [Hc Hfree].
  change (split "," (String c t))
    with (if Ascii.eqb c ","
          then "" :: split "," t
          else match split "," t with
               | u :: us => String c u :: us
               | [] => [String c EmptyString]
               end).
  rewrite Hc, (IH Hfree). reflexivity.
Qed.

(** X10. Splitting at commas undoes joining with commas: a non-empty list
    of tokens that hold no comma, joined and split again, is the list
    itself; and a string without a comma is its own single token. *)
Theorem split_join (tokens : list string) :
  tokens <> [] -> Forall comma_free tokens ->
  split "," (join "," tokens) = tokens.
Proof.
  induction tokens as [|t r IH]; intros Hne Hfree; [congruence|].
  inversion Hfree as [|? ? Ht Hr]; subst.
  destruct r as [|u us].
  - simpl. now apply split_token.
  - rewrite join_cons by discriminate.
    rewrite (split_token_then t _ Ht). f_equal.
    apply IH; [discriminate | exact Hr].
Qed.

Lemma split_join_witness :
  split "," (join "," ["reed"; ""; "usajobs"]) = ["reed"; ""; "usajobs"].
Proof.
  apply split_join; [discriminate|].
  repeat constructor; intros i;
    repeat (first [discriminate | destruct i as [|i]; simpl]).
Defined.

(** ** The credentials of the provider calls *)

Lemma credential_nonempty (env : gmap string string) (name placeholder : string) :
  placeholder <> "" -> credential env name placeholder <> "".
Proof.
  intros Hp. unfold credential.
  destruct (env !! name) as [s|]; [|exact Hp].
  destruct (String.eqb s "") eqn:Hs; [exact Hp|].
  now apply String.eqb_neq.
Qed.

(** X11. Whatever the environment, every provider call carries a
    credential that is not empty: the Adzuna call its app id and app key as
    parameters, the Reed call the key and a colon, base64-encoded, in a
    Basic authorization header, the USAJobs call the key in the
    [Authorization-Key] header. Each is the environment variable when that
    is set and not empty, and the placeholder otherwise. *)
Theorem provider_calls_carry_credentials (h : Host) (env : gmap string string)
    (req : Request) :
  (forall o, adzuna_request h (API_KEYS env) req = Ok o ->
             lookup_field "app_id" (params o)
             = JStr (credential env "ADZUNA_APP_ID" "your_adzuna_app_id")
             /\ lookup_field "app_key" (params o)
                = JStr (credential env "ADZUNA_APP_KEY" "your_adzuna_app_key"))
  /\ lookup_field "app_id" (adzuna_params (API_KEYS env) req)
     = JStr (credential env "ADZUNA_APP_ID" "your_adzuna_app_id")
  /\ lookup_field "app_key" (adzuna_params (API_KEYS env) req)
     = JStr (credential env "ADZUNA_APP_KEY" "your_adzuna_app_key")
  /\ (exists o,
        reed_request h (API_KEYS env) req = Ok o
        /\ headers o
           = [("Authorization",
               "Basic " +:+ base64 h (credential env "REED_API_KEY" "your_reed_api_key"
                                      +:+ ":"))])
  /\ (exists o,
        usajobs_request h (API_KEYS env) req = Ok o
        /\ headers o
           = [("Authorization-Key",
               credential env "USAJOBS_API_KEY" "your_usajobs_api_key");
              ("User-Agent", "JobSearchApp/1.0")])
  /\ credential env "ADZUNA_APP_ID" "your_adzuna_app_id" <> ""
  /\ credential env "ADZUNA_APP_KEY" "your_adzuna_app_key" <> ""
  /\ credential env "REED_API_KEY" "your_reed_api_key" <> ""
  /\ credential env "USAJOBS_API_KEY" "your_usajobs_api_key" <> "".
Proof.
  assert (Hid : lookup_field "app_id" (adzuna_params (API_KEYS env) req)
                = JStr (credential env "ADZUNA_APP_ID" "your_adzuna_app_id"))
    by apply credential_fallback.
  assert (Hkey : lookup_field "app_key" (adzuna_params (API_KEYS env) req)
                 = JStr (credential env "ADZUNA_APP_KEY" "your_adzuna_app_key"))
    by apply credential_fallback.
  split.
  { intros o. unfold adzuna_request.
    destruct (toString h _) as [page_text|e]; cbn [rbind]; [|discriminate].
    intros Ho. inversion Ho; subst o. cbn [params]. now split. }
  split; [exact Hid|]. split; [exact Hkey|].
  split; [eexists; split; [apply reed_request_Ok | reflexivity]|].
  split; [eexists; split; [apply usajobs_request_Ok | reflexivity]|].
  repeat split; apply credential_nonempty; discriminate.
Qed.

(** ** What a successful provider route carries *)

Lemma fallback_500 (h : Host) (keywords place label : value) (message : string)
    (w : World) (resp : Response) :
  fst (bind (getFallbackJobs h keywords place label)
            (fun jobs => ret {| status := 500; body := Failed message jobs |}) w)
  = Ok resp ->
  status resp = 500%nat.
Proof.
  unfold bind. destruct (convertible keywords) eqn:Hc.
  - rewrite getFallbackJobs_Ok by assumption. intros H. now inversion H.
  - rewrite getFallbackJobs_Throw by assumption. discriminate.
Qed.

Ltac failed_branch H Hst := apply fallback_500 in H; rewrite Hst in H; discriminate H.

(** X12. When a provider route answers 200, its jobs are the provider's
    result items mapped one by one, in the provider's order, and its total
    is the count the provider reported, which need not be the number of
    jobs in the answer. *)
Theorem provider_route_carries (h : Host) (keys : ApiKeys) (req : Request)
    (w : World) (resp : Response) :
  status resp = 200%nat ->
  (fst (adzuna_handler h keys req w) = Ok resp ->
   exists o data items,
     adzuna_request h keys req = Ok o
     /\ upstream h (length (calls w)) o = Some data
     /\ prop_of data "results" = JArr items
     /\ carries (adzuna_job h) items (prop_of data "count") resp)
  /\ (fst (reed_handler h keys req w) = Ok resp ->
      exists o data items,
        reed_request h keys req = Ok o
        /\ upstream h (length (calls w)) o = Some data
        /\ prop_of data "results" = JArr items
        /\ carries (reed_job h) items (prop_of data "totalResults") resp)
  /\ (fst (usajobs_handler h keys req w) = Ok resp ->
      exists o data items,
        usajobs_request h keys req = Ok o
        /\ upstream h (length (calls w)) o = Some data
        /\ prop_of (prop_of data "SearchResult") "SearchResultItems" = JArr items
        /\ carries (usajobs_job h) items
             (prop_of (prop_of data "SearchResult") "SearchResultCount") resp).
Proof.
  intros Hst. split; [|split]; intros Hrun.
  - unfold adzuna_handler, try_catch, bind at 1, lift in Hrun.
    destruct (adzuna_request h keys req) as [o|e]; [|failed_branch Hrun Hst].
    unfold bind at 1, axios_get in Hrun.
    destruct (upstream h (length (calls w)) o) as [data|] eqn:Hup;
      [|failed_branch Hrun Hst].
    unfold bind at 1, lift, get_prop in Hrun.
    destruct (nullish data) eqn:Hn; [failed_branch Hrun Hst|].
    unfold bind at 1, lift in Hrun.
    destruct (prop_of data "results") as [| |b|n|s|items|fs] eqn:Hr;
      try (failed_branch Hrun Hst).
    cbn [array_map] in Hrun.
    destruct (mapM (adzuna_job h) items) as [jobs|e] eqn:Hm; [|failed_branch Hrun Hst].
    unfold bind, ret in Hrun. cbn [fst] in Hrun. inversion Hrun; subst.
    exists o, data, items. split; [reflexivity|]. split; [exact Hup|].
    split; [exact Hr|].
    exists jobs. split; [reflexivity|]. now apply mapM_Forall2.
  - unfold reed_handler, try_catch, bind at 1, lift in Hrun.
    destruct (reed_request h keys req) as [o|e]; [|failed_branch Hrun Hst].
    unfold bind at 1, axios_get in Hrun.
    destruct (upstream h (length (calls w)) o) as [data|] eqn:Hup;
      [|failed_branch Hrun Hst].
    unfold bind at 1, lift, get_prop in Hrun.
    destruct (nullish data) eqn:Hn; [failed_branch Hrun Hst|].
    unfold bind at 1, lift in Hrun.
    destruct (prop_of data "results") as [| |b|n|s|items|fs] eqn:Hr;
      try (failed_branch Hrun Hst).
    cbn [array_map] in Hrun.
    destruct (mapM (reed_job h) items) as [jobs|e] eqn:Hm; [|failed_branch Hrun Hst].
    unfold bind, ret in Hrun. cbn [fst] in Hrun. inversion Hrun; subst.
    exists o, data, items. split; [reflexivity|]. split; [exact Hup|].
    split; [exact Hr|].
    exists jobs. split; [reflexivity|]. now apply mapM_Forall2.
  - unfold usajobs_handler, try_catch, bind at 1, lift in Hrun.
    destruct (usajobs_request h keys req) as [o|e]; [|failed_branch Hrun Hst].
    unfold bind at 1, axios_get in Hrun.
    destruct (upstream h (length (calls w)) o) as [data|] eqn:Hup;
      [|failed_branch Hrun Hst].
    unfold bind at 1, lift, get_prop in Hrun.
    destruct (nullish data) eqn:Hn; [failed_branch Hrun Hst|].
    unfold bind at 1, lift in Hrun.
    destruct (nullish (prop_of data "SearchResult")) eqn:Hsr; [failed_branch Hrun Hst|].
    unfold bind at 1, lift in Hrun.
    destruct (prop_of (prop_of data "SearchResult") "SearchResultItems")
      as [| |b|n|s|items|fs] eqn:Hr; try (failed_branch Hrun Hst).
    cbn [array_map] in Hrun.
    destruct (mapM (usajobs_job h) items) as [jobs|e] eqn:Hm; [|failed_branch Hrun Hst].
    unfold bind, ret in Hrun. rewrite Hsr in Hrun. cbn [fst] in Hrun.
    inversion Hrun; subst.
    exists o, data, items. split; [reflexivity|]. split; [exact Hup|].
    split; [exact Hr|].
    exists jobs. split; [reflexivity|]. now apply mapM_Forall2.
Qed.

Lemma provider_route_carries_witness :
  exists items,
    length items = 3%nat
    /\ carries (reed_job overlapping_host) items (JNum (whole 3)) reed_overlap_answer.
Proof.
  assert (Hrun : fst (reed_handler overlapping_host (API_KEYS ∅)
                        (get_request "/api/jobs/reed" []) world0)
                 = Ok reed_overlap_answer) by (vm_compute; reflexivity).
  destruct (proj1 (proj2 (provider_route_carries overlapping_host (API_KEYS ∅)
                            (get_request "/api/jobs/reed" []) world0
                            reed_overlap_answer eq_refl))
              Hrun) as (o & data & items & Hreq & Hup & Hitems & Hcarries).
  exists items. vm_compute in Hreq. inversion Hreq; subst o.
  vm_compute in Hup. inversion Hup; subst data.
  split; [|exact Hcarries].
  inversion Hitems. reflexivity.
Defined.
